(** * cloudinit/util.py: configuration merging and seed reading

    A shallow embedding of the configuration-resolution and seed-reading
    functions of [cloudinit/util.py] (Python 2):

      mergedict, obj_name, load_yaml, load_file, read_conf, read_conf_d,
      read_conf_with_confd, get_cmdline, read_cc_from_cmdline,
      merge_base_cfg, read_file_or_url, read_seeded, read_optional_seed,

    and of the helpers around them:

      translate_bool, get_cfg_option_bool, get_cfg_option_str,
      get_cfg_by_path, clean_filename, is_ipv4, dos2unix, pipe_in_out,
      shellify, get_fqdn_from_hosts, get_proc_env.

    Python values are a tagged variant; a [dict] is the list of its items in
    iteration order, so every statement quantified over documents holds for
    whichever order the interpreter iterates in.  Python keeps the keys of
    a [dict] distinct; a statement that depends on it says so ([NoDup]).
    Exceptions are explicit results; logging and URL fetches are recorded in
    an event trace threaded through the effectful functions.  What lies
    outside the file is a parameter of the environment: the filesystem,
    [os.environ], [yaml.load], [uhelp.readurl] and [uhelp.ok_http_code];
    for [is_ipv4], the builtin [int]. *)

From Stdlib Require Import ZArith Ascii String List Bool Lia Sorted Permutation.
From Stdlib Require Import Decimal DecimalString DecimalZ.
From stdpp Require Import base gmap strings.
From Equations Require Import Equations.
Import ListNotations.

Local Open Scope string_scope.
Local Open Scope Z_scope.

(* stdpp keeps [simpl] from unfolding string concatenation *)
#[local] Arguments String.append : simpl nomatch.

(** ** Python exceptions and results *)

Inductive exn : Type :=
| TypeError (msg : string)
| ValueError (msg : string)
| YAMLError
| IOError (errno : Z)
| OSError (errno : Z).

Inductive except (A : Type) : Type :=
| Return (a : A)
| Raise (e : exn).
Arguments Return {A} a.
Arguments Raise {A} e.

Definition ENOENT : Z := 2.
Definition ENXIO : Z := 6.
Definition EACCES : Z := 13.
Definition ENOTDIR : Z := 20.
Definition EISDIR : Z := 21.

(** ** Python 2 [str] primitives *)

Definition startswith (s p : string) : bool := String.prefix p s.

Definition endswith (s p : string) : bool :=
  (String.length p <=? String.length s)%nat &&
  String.eqb (substring (String.length s - String.length p) (String.length p) s) p.

(** [s.find(sub, start)] for [start >= 0]: lowest index, or [-1]. *)
Definition find (s sub : string) (start : Z) : Z :=
  match String.index (Z.to_nat start) sub s with
  | Some i => Z.of_nat i
  | None => -1
  end.

(** [s[a:b]] for [0 <= a] and [0 <= b]. *)
Definition slice (s : string) (a b : Z) : string :=
  substring (Z.to_nat a) (Z.to_nat (b - a)) s.

(** [string.whitespace]: space, tab, newline, vertical tab, form feed,
    carriage return. *)
Definition is_space (c : ascii) : bool :=
  let n := nat_of_ascii c in
  (n =? 32)%nat || ((9 <=? n)%nat && (n <=? 13)%nat).

Fixpoint lstrip (s : string) : string :=
  match s with
  | String c s' => if is_space c then lstrip s' else s
  | EmptyString => EmptyString
  end.

Fixpoint rstrip (s : string) : string :=
  match s with
  | String c s' =>
      match rstrip s' with
      | EmptyString => if is_space c then EmptyString else String c EmptyString
      | t => String c t
      end
  | EmptyString => EmptyString
  end.

Definition strip (s : string) : string := rstrip (lstrip s).

(** [s.replace(old, new)] for a non-empty [old]: occurrences are replaced
    left to right and do not overlap; [skip] counts the characters of a
    matched occurrence still to be dropped. *)
Fixpoint replace_from (old new : string) (skip : nat) (s : string) : string :=
  match s with
  | EmptyString => EmptyString
  | String c s' =>
      match skip with
      | S k => replace_from old new k s'
      | O =>
          if String.prefix old s
          then new ++ replace_from old new (String.length old - 1) s'
          else String c (replace_from old new 0 s')
      end
  end.

Definition replace (s old new : string) : string := replace_from old new 0 s.

(** [sep.join(l)] *)
Definition join (sep : string) (l : list string) : string := String.concat sep l.

(** [os.path.join(a, b)] (posixpath) *)
Definition path_join (a b : string) : string :=
  if startswith b "/" then b
  else if String.eqb a "" || endswith a "/" then a ++ b
  else a ++ "/" ++ b.

(** [sorted(l, reverse=True)] on [str]: byte-wise lexicographic order,
    largest first. *)
Fixpoint insert_desc (x : string) (l : list string) : list string :=
  match l with
  | [] => [x]
  | y :: l' => if String.ltb y x then x :: l else y :: insert_desc x l'
  end.

Definition sorted_reverse (l : list string) : list string :=
  fold_right insert_desc [] l.

(** *** [fmt % arg] with a single [str] argument

    The directive grammar of Python 2's [str] formatting:
    [%], an optional [(key)], flags, a width, a [.precision], a length
    modifier and a conversion character.  The one argument is consumed by
    the first conversion other than [%%] (or by a [*]); text is truncated
    to the precision and padded with spaces to the width. *)

(** The newline character. *)
Definition nl : string := String "010"%char EmptyString.

Inductive fmode : Type :=
| Lit
| Key
| Flags (ljust : bool)
| Width (ljust : bool) (w : Z)
| PrecStart (ljust : bool) (w : Z)
| Prec (ljust : bool) (w p : Z)
| Conv (ljust : bool) (w p : Z).

Inductive faction : Type :=
| Goto (m : fmode)
| Emit (ljust : bool) (w p : Z) (c : ascii)
| Fail (e : exn).

Definition char_in (c : ascii) (s : string) : bool :=
  match String.index 0 (String c EmptyString) s with Some _ => true | None => false end.

Definition is_digit (c : ascii) : bool :=
  let n := nat_of_ascii c in (48 <=? n)%nat && (n <=? 57)%nat.

Definition digit_val (c : ascii) : Z := Z.of_nat (nat_of_ascii c) - 48.

Definition PY_SSIZE_T_MAX : Z := 2 ^ 63 - 1.
Definition INT_MAX : Z := 2 ^ 31 - 1.

Definition not_enough : exn := TypeError "not enough arguments for format string".

(** A [*] takes the next argument, which must be an [int]. *)
Definition star_error (used : bool) : exn :=
  if used then not_enough else TypeError "* wants int".

Definition at_len (lj : bool) (w p : Z) (c : ascii) : faction :=
  if char_in c "hlL" then Goto (Conv lj w p) else Emit lj w p c.

Definition at_dot (lj : bool) (w : Z) (c : ascii) : faction :=
  if Ascii.eqb c "." then Goto (PrecStart lj w) else at_len lj w (-1) c.

Definition at_width (lj used : bool) (c : ascii) : faction :=
  if Ascii.eqb c "*" then Fail (star_error used)
  else if is_digit c then Goto (Width lj (digit_val c))
  else at_dot lj (-1) c.

Definition at_flags (lj used : bool) (c : ascii) : faction :=
  if char_in c "-+ #0" then Goto (Flags (lj || Ascii.eqb c "-"))
  else at_width lj used c.

Definition directive_step (m : fmode) (used : bool) (c : ascii) : faction :=
  match m with
  | Lit => Goto Lit
  | Key =>
      if Ascii.eqb c "(" then Fail (TypeError "format requires a mapping")
      else at_flags false used c
  | Flags lj => at_flags lj used c
  | Width lj w =>
      if is_digit c then
        if (PY_SSIZE_T_MAX - digit_val c) / 10 <? w
        then Fail (ValueError "width too big")
        else Goto (Width lj (w * 10 + digit_val c))
      else at_dot lj w c
  | PrecStart lj w =>
      if Ascii.eqb c "*" then Fail (star_error used)
      else if is_digit c then Goto (Prec lj w (digit_val c))
      else at_len lj w 0 c
  | Prec lj w p =>
      if is_digit c then
        if (INT_MAX - digit_val c) / 10 <? p
        then Fail (ValueError "prec too big")
        else Goto (Prec lj w (p * 10 + digit_val c))
      else at_len lj w p c
  | Conv lj w p => Emit lj w p c
  end.

Definition dquote : ascii := ascii_of_nat 34.

Definition hex_digit (n : nat) : ascii :=
  if (n <? 10)%nat then ascii_of_nat (48 + n) else ascii_of_nat (87 + n).

(** [repr(s)] of a [str]. *)
Fixpoint repr_body (quote : ascii) (s : string) : string :=
  match s with
  | EmptyString => EmptyString
  | String c s' =>
      let n := nat_of_ascii c in
      (if Ascii.eqb c quote || Ascii.eqb c "\" then String "\" (String c EmptyString)
       else if (n =? 9)%nat then "\t"
       else if (n =? 10)%nat then "\n"
       else if (n =? 13)%nat then "\r"
       else if (n <? 32)%nat || (127 <=? n)%nat
            then String "\" (String "x" (String (hex_digit (n / 16))
                   (String (hex_digit (n mod 16)) EmptyString)))
       else String c EmptyString) ++ repr_body quote s'
  end.

Definition repr (s : string) : string :=
  let quote : ascii :=
    if char_in "'" s && negb (char_in dquote s) then dquote else "'"%char in
  String quote (repr_body quote s ++ String quote EmptyString).

Fixpoint spaces (n : nat) : string :=
  match n with O => EmptyString | S k => String " " (spaces k) end.

Definition pad (lj : bool) (w : Z) (text : string) : string :=
  let fill := spaces (Z.to_nat (w - Z.of_nat (String.length text))) in
  if lj then text ++ fill else fill ++ text.

Definition truncate (p : Z) (text : string) : string :=
  if p <? 0 then text else substring 0 (Z.to_nat p) text.

(** One conversion: the text it produces and whether the argument is now
    consumed.  The message of the last [ValueError] is shortened: Python
    adds the character and its index. *)
Definition convert (lj : bool) (w p : Z) (c : ascii) (used : bool) (arg : string)
  : except (string * bool) :=
  if Ascii.eqb c "%" then Return (pad lj w "%", used)
  else if used then Raise not_enough
  else if Ascii.eqb c "s" then Return (pad lj w (truncate p arg), true)
  else if Ascii.eqb c "r" then Return (pad lj w (truncate p (repr arg)), true)
  else if Ascii.eqb c "c" then
    if (String.length arg =? 1)%nat then Return (pad lj w arg, true)
    else Raise (TypeError "%c requires int or char")
  else if char_in c "diuoxX" then
    Raise (TypeError ("%" ++ String (if Ascii.eqb c "i" then "d"%char else c)
                        " format: a number is required, not str"))
  else if char_in c "eEfFgG" then
    Raise (TypeError "float argument required, not str")
  else Raise (ValueError "unsupported format character").

Fixpoint format_from (arg : string) (m : fmode) (used : bool) (f : string)
  : except string :=
  match f with
  | EmptyString =>
      match m with
      | Lit =>
          if used then Return EmptyString
          else Raise (TypeError "not all arguments converted during string formatting")
      | _ => Raise (ValueError "incomplete format")
      end
  | String c f' =>
      match m with
      | Lit =>
          if Ascii.eqb c "%" then format_from arg Key used f'
          else
            match format_from arg Lit used f' with
            | Return out => Return (String c out)
            | Raise e => Raise e
            end
      | _ =>
          match directive_step m used c with
          | Goto m' => format_from arg m' used f'
          | Fail e => Raise e
          | Emit lj w p c' =>
              match convert lj w p c' used arg with
              | Raise e => Raise e
              | Return (text, used') =>
                  match format_from arg Lit used' f' with
                  | Return out => Return (text ++ out)
                  | Raise e => Raise e
                  end
              end
          end
      end
  end.

(** [fmt % arg] *)
Definition format (fmt arg : string) : except string :=
  format_from arg Lit false fmt.

(** ** Python values *)

#[local] Set Warnings "-register-all".

Inductive value : Type :=
| VNone
| VBool (b : bool)
| VInt (n : Z)
| VStr (s : string)
| VList (l : list value)
| VDict (items : list (string * value)).

Inductive pytype : Type := TNone | TBool | TInt | TStr | TList | TDict.

Definition type_of (v : value) : pytype :=
  match v with
  | VNone => TNone
  | VBool _ => TBool
  | VInt _ => TInt
  | VStr _ => TStr
  | VList _ => TList
  | VDict _ => TDict
  end.

Definition type_name (t : pytype) : string :=
  match t with
  | TNone => "NoneType"
  | TBool => "bool"
  | TInt => "int"
  | TStr => "str"
  | TList => "list"
  | TDict => "dict"
  end.

Definition pytype_eqb (a b : pytype) : bool :=
  match a, b with
  | TNone, TNone | TBool, TBool | TInt, TInt
  | TStr, TStr | TList, TList | TDict, TDict => true
  | _, _ => false
  end.

(** [isinstance(v, t)]; [bool] is a subclass of [int]. *)
Definition isinstance (v : value) (t : pytype) : bool :=
  pytype_eqb (type_of v) t ||
  match v, t with VBool _, TInt => true | _, _ => false end.

Definition isinstance_any (v : value) (ts : list pytype) : bool :=
  existsb (isinstance v) ts.

Definition is_dict (v : value) : bool := isinstance v TDict.

(** Truth value of an object, as tested by [if x:] and [not x]. *)
Definition truthy (v : value) : bool :=
  match v with
  | VNone => false
  | VBool b => b
  | VInt n => negb (n =? 0)
  | VStr s => negb (String.eqb s "")
  | VList l => match l with [] => false | _ => true end
  | VDict d => match d with [] => false | _ => true end
  end.

(** *** Dictionaries: [k in d], [d[k]], [d[k] = v] *)

Fixpoint dict_get (d : list (string * value)) (k : string) : option value :=
  match d with
  | [] => None
  | (k', v) :: rest => if String.eqb k' k then Some v else dict_get rest k
  end.


(** Assignment keeps the position of an existing key and appends a new one. *)
Fixpoint dict_set (d : list (string * value)) (k : string) (v : value)
  : list (string * value) :=
  match d with
  | [] => [(k, v)]
  | (k', v') :: rest =>
      if String.eqb k' k then (k', v) :: rest else (k', v') :: dict_set rest k v
  end.


(** ** obj_name and mergedict *)

(** [obj_name(obj)] recurses to [obj.__class__] until it reaches a type,
    whose [__name__] it returns; every value here is an instance, so one
    step reaches its class. *)
Definition obj_name (v : value) : string := type_name (type_of v).

(** The body of [for k, v in cand.iteritems()], with the recursive call
    abstracted as [merge]. *)
Definition merge_items (merge : value -> value -> except value)
  : list (string * value) -> list (string * value)
    -> except (list (string * value)) :=
  fix loop (items src : list (string * value)) {struct items} :=
    match items with
    | [] => Return src
    | (k, v) :: rest =>
        match dict_get src k with
        | None => loop rest (dict_set src k v)
        | Some cur =>
            match merge cur v with
            | Return m => loop rest (dict_set src k m)
            | Raise e => Raise e
            end
        end
    end.

Fixpoint mergedict (src cand : value) {struct cand} : except value :=
  match src, cand with
  | VDict s, VDict c =>
      match merge_items (fun a b => mergedict a b) c s with
      | Return s' => Return (VDict s')
      | Raise e => Raise e
      end
  | _, _ =>
      if negb (is_dict src) then
        Raise (TypeError ("Attempting to merge a non dictionary source type: "
                            ++ obj_name src))
      else if negb (is_dict cand) then
        Raise (TypeError ("Attempting to merge a non dictionary candidate type: "
                            ++ obj_name cand))
      else Return src
  end.

(** ** The environment

    What the functions read from outside: the filesystem, [os.environ],
    [yaml.load] and the [url_helper] module ([uhelp.readurl],
    [uhelp.ok_http_code]). *)

Inductive node : Type :=
| File (content : string)      (* regular file *)
| FileErr (errno : Z)          (* regular file whose open fails with IOError *)
| Dir (entries : list string)  (* directory, entries as os.listdir returns them *)
| DirErr (errno : Z)           (* directory whose listing fails with OSError *)
| Special.                     (* socket *)

Record world : Type := World {
  fs : gmap string node;
  environ : gmap string string;
  (** [yaml.load(blob)]: the document, or [None] when it raises [yaml.YAMLError] *)
  yaml_load : string -> option value;
  (** [uhelp.readurl(url, timeout=, retries=)]: content and status code *)
  readurl : string -> Z -> Z -> except (string * Z);
  (** [uhelp.ok_http_code(status)] *)
  ok_http_code : Z -> bool
}.

Definition isfile (w : world) (p : string) : bool :=
  match fs w !! p with
  | Some (File _) | Some (FileErr _) => true
  | _ => false
  end.

Definition isdir (w : world) (p : string) : bool :=
  match fs w !! p with
  | Some (Dir _) | Some (DirErr _) => true
  | _ => false
  end.

Definition listdir (w : world) (p : string) : except (list string) :=
  match fs w !! p with
  | Some (Dir entries) => Return entries
  | Some (DirErr n) => Raise (OSError n)
  | Some (File _) | Some (FileErr _) | Some Special => Raise (OSError ENOTDIR)
  | None => Raise (OSError ENOENT)
  end.

(** [open(fname, 'rb')] followed by reading the whole file *)
Definition open_read (w : world) (fname : string) : except string :=
  match fs w !! fname with
  | Some (File content) => Return content
  | Some (FileErr n) => Raise (IOError n)
  | Some (Dir _) | Some (DirErr _) => Raise (IOError EISDIR)
  | Some Special => Raise (IOError ENXIO)
  | None => Raise (IOError ENOENT)
  end.

(** ** Effects: an event trace and exceptions *)

Inductive level : Type := DEBUG | EXCEPTION.

(** A log record keeps its level and format string; a fetch keeps the
    arguments [uhelp.readurl] was called with. *)
Inductive event : Type :=
| Log (lvl : level) (fmt : string)
| Fetch (url : string) (timeout retries : Z).

Definition M (A : Type) : Type := list event -> except A * list event.

Definition ret {A} (a : A) : M A := fun tr => (Return a, tr).

Definition raise {A} (e : exn) : M A := fun tr => (Raise e, tr).

Definition bind {A B} (c : M A) (k : A -> M B) : M B :=
  fun tr =>
    match c tr with
    | (Return a, tr') => k a tr'
    | (Raise e, tr') => (Raise e, tr')
    end.

(** [try: c except ... as e: h(e)]; a handler re-raises what it does not
    catch. *)
Definition try_except {A} (c : M A) (h : exn -> M A) : M A :=
  fun tr =>
    match c tr with
    | (Return a, tr') => (Return a, tr')
    | (Raise e, tr') => h e tr'
    end.

Definition lift {A} (r : except A) : M A := fun tr => (r, tr).

Definition emit (ev : event) : M unit := fun tr => (Return tt, (tr ++ [ev])%list).

Definition LOG_debug (fmt : string) : M unit := emit (Log DEBUG fmt).
Definition LOG_exception (fmt : string) : M unit := emit (Log EXCEPTION fmt).

Notation "'do' x <- c ; k" := (bind c (fun x => k))
  (at level 10, x pattern, c at level 100, k at level 200).
Notation "'do_' c ; k" := (bind c (fun _ => k))
  (at level 10, c at level 100, k at level 200).

(** ** Reading configuration *)

Definition tag_begin : string := "cc:".
Definition tag_end : string := "end_cc".
Definition begin_l : Z := Z.of_nat (String.length tag_begin).
Definition end_l : Z := Z.of_nat (String.length tag_end).

(** [end = cmdline.find(tag_end, begin + begin_l)], then
    [if end < 0: end = clen] *)
Definition block_end (cmdline : string) (begin : Z) : Z :=
  let clen := Z.of_nat (String.length cmdline) in
  let end_ := find cmdline tag_end (begin + begin_l) in
  if end_ <? 0 then clen else end_.

(** [cmdline[begin + begin_l:end].lstrip().replace("\\n", "\n")], the
    token appended; in Rocq text a backslash is an ordinary character, so
    the two-character escape is written "\n" and the newline is [nl]. *)
Definition block_token (cmdline : string) (begin : Z) : string :=
  replace (lstrip (slice cmdline (begin + begin_l) (block_end cmdline begin))) "\n" nl.

(** [begin = cmdline.find(tag_begin, end + end_l)] *)
Definition next_begin (cmdline : string) (begin : Z) : Z :=
  find cmdline tag_begin (block_end cmdline begin + end_l).

(** The loop [while begin >= 0] ends because each [begin] found lies
    beyond the previous one. *)
Definition scan_measure (cmdline : string) (begin : Z) : nat :=
  if begin <? 0 then O else S (Z.to_nat (Z.of_nat (String.length cmdline) - begin)).

Lemma prefix_length p : forall s,
  String.prefix p s = true -> (String.length p <= String.length s)%nat.
Proof.
  induction p as [|a p IH]; intros [|b s] H; simpl in *; try lia; try discriminate.
  destruct (ascii_dec a b); [|discriminate]. apply IH in H. lia.
Qed.

Lemma index_bounds sub s : forall n m,
  String.index n sub s = Some m ->
  (n <= m /\ m + String.length sub <= String.length s)%nat.
Proof.
  induction s as [|c s IH]; intros n m H.
  - destruct n, sub; simpl in H; try discriminate. inversion H; simpl; lia.
  - destruct n; cbn [String.index] in H.
    + destruct (String.prefix sub (String c s)) eqn:Hp.
      * inversion H; subst. apply prefix_length in Hp. lia.
      * destruct (String.index 0 sub s) eqn:Hi; [|discriminate]. inversion H; subst.
        apply IH in Hi. simpl. lia.
    + destruct (String.index n sub s) eqn:Hi; [|discriminate]. inversion H; subst.
      apply IH in Hi. simpl. lia.
Qed.

Lemma find_range s sub start :
  0 <= start ->
  find s sub start = -1 \/
  (start <= find s sub start /\
   find s sub start + Z.of_nat (String.length sub) <= Z.of_nat (String.length s)).
Proof.
  intros Hs. unfold find.
  destruct (String.index _ _ _) eqn:Hi; [right|left; reflexivity].
  apply index_bounds in Hi. lia.
Qed.

Lemma next_begin_decreases cmdline begin :
  0 <= begin ->
  (scan_measure cmdline (next_begin cmdline begin) < scan_measure cmdline begin)%nat.
Proof.
  intros Hb. unfold next_begin, block_end, scan_measure.
  set (clen := Z.of_nat (String.length cmdline)).
  assert (Hbl : begin_l = 3) by reflexivity. assert (Hel : end_l = 6) by reflexivity.
  assert (Htb : Z.of_nat (String.length tag_begin) = 3) by reflexivity.
  assert (Hte : Z.of_nat (String.length tag_end) = 6) by reflexivity.
  destruct (find_range cmdline tag_end (begin + begin_l)) as [He|He]; [lia| |].
  - rewrite He. change (-1 <? 0) with true. cbv iota.
    destruct (find_range cmdline tag_begin (clen + end_l)) as [Hn|Hn]; [lia| |].
    + rewrite Hn. change (-1 <? 0) with true. cbv iota.
      destruct (Z.ltb_spec begin 0); lia.
    + fold clen in Hn. lia.
  - fold clen in He.
    destruct (Z.ltb_spec (find cmdline tag_end (begin + begin_l)) 0); [lia|].
    destruct (find_range cmdline tag_begin (find cmdline tag_end (begin + begin_l) + end_l))
      as [Hn|Hn]; [lia| |].
    + rewrite Hn. change (-1 <? 0) with true. cbv iota.
      destruct (Z.ltb_spec begin 0); lia.
    + fold clen in Hn.
      destruct (Z.ltb_spec (find cmdline tag_begin
                  (find cmdline tag_end (begin + begin_l) + end_l)) 0); [lia|].
      destruct (Z.ltb_spec begin 0); lia.
Qed.

(** The loop [while begin >= 0] of [read_cc_from_cmdline]: [tokens] are
    the blocks found so far, [begin] the index of the next begin tag or
    [-1].  It is defined by recursion on [scan_measure], so it is total. *)
Equations cc_scan (cmdline : string) (begin : Z) (tokens : list string) : list string
  by wf (scan_measure cmdline begin) lt :=
  cc_scan cmdline begin tokens with Z_lt_ge_dec begin 0 => {
    | left _ := tokens
    | right _ :=
        cc_scan cmdline (next_begin cmdline begin)
                (tokens ++ [block_token cmdline begin])%list }.
Next Obligation. apply next_begin_decreases. lia. Qed.

(** [read_cc_from_cmdline(cmdline)] for a given command line: the scan
    from [begin = cmdline.find(tag_begin)], then ['\n'.join(tokens)] *)
Definition cc_from_cmdline (cmdline : string) : string :=
  join nl (cc_scan cmdline (find cmdline tag_begin 0) []).

(** [s[n:]] *)
Fixpoint drop (n : nat) (s : string) : string :=
  match n, s with
  | S k, String _ s' => drop k s'
  | _, _ => s
  end.


(** *** The extraction as the specification words it

    A left-to-right scan of the characters: outside a block, a begin tag
    opens one just after the tag; inside, the block runs up to the next end
    tag, or to the end of the string, and the scan resumes after that tag.
    [skip] counts the characters of a tag still to be passed over. *)
Inductive scan_mode : Type := Outside | Inside.

Fixpoint spec_blocks_from (m : scan_mode) (skip : nat) (s : string) : list string :=
  match s with
  | EmptyString => match m with Outside => [] | Inside => [EmptyString] end
  | String c s' =>
      match skip with
      | S k => spec_blocks_from m k s'
      | O =>
          match m with
          | Outside =>
              if String.prefix tag_begin s
              then spec_blocks_from Inside (String.length tag_begin - 1) s'
              else spec_blocks_from Outside 0 s'
          | Inside =>
              if String.prefix tag_end s
              then EmptyString :: spec_blocks_from Outside (String.length tag_end - 1) s'
              else
                match spec_blocks_from Inside 0 s' with
                | body :: rest => String c body :: rest
                | [] => [String c EmptyString]
                end
          end
      end
  end.

Definition spec_blocks (cmdline : string) : list string := spec_blocks_from Outside 0 cmdline.

(** Leading whitespace trimmed, then each two-character [\n] decoded. *)
Definition unescape (body : string) : string := replace (lstrip body) "\n" nl.

Section Util.

Variable w : world.

Definition load_file (fname : string) : M string :=
  do_ LOG_debug "Reading from %s";
  do contents <- lift (open_read w fname);
  (* pipe_in_out *)
  do_ LOG_debug "Transferring the contents of %s to %s in chunks of size %sb";
  do_ LOG_debug "Read %s bytes from %s";
  ret contents.

Definition get_cmdline : M string :=
  match environ w !! "DEBUG_PROC_CMDLINE" with
  | Some cmdline => ret cmdline
  | None =>
      try_except (do contents <- load_file "/proc/cmdline"; ret (strip contents))
                 (fun _ => ret "")
  end.

(** [load_yaml(blob, default, allowed)]: a [yaml.YAMLError], and the
    [TypeError] raised for a root of a type not allowed, are caught and
    logged. *)
Definition load_yaml (blob : string) (default : value) (allowed : list pytype)
  : M value :=
  do_ LOG_debug "Attempting to load yaml from string of length %s with allowed root types %s";
  match yaml_load w blob with
  | Some converted =>
      if negb (isinstance_any converted allowed)
      then do_ LOG_exception "Failed loading yaml due to: %s"; ret default
      else ret converted
  | None => do_ LOG_exception "Failed loading yaml due to: %s"; ret default
  end.

Definition read_conf (fname : string) : M value :=
  try_except
    (do contents <- load_file fname; load_yaml contents (VDict []) [TDict])
    (fun e =>
       match e with
       | IOError errno => if errno =? ENOENT then ret (VDict []) else raise e
       | _ => raise e
       end).

(** The loop [for conf in confs: cfg = mergedict(cfg, read_conf(...))] *)
Fixpoint read_conf_d_loop (confd : string) (confs : list string) (cfg : value)
  : M value :=
  match confs with
  | [] => ret cfg
  | conf :: rest =>
      do frag <- read_conf (path_join confd conf);
      do cfg' <- lift (mergedict cfg frag);
      read_conf_d_loop confd rest cfg'
  end.

Definition read_conf_d (confd : string) : M value :=
  do names <- lift (listdir w confd);
  let confs := sorted_reverse names in
  let confs := filter (fun f => endswith f ".cfg") confs in
  let confs := filter (fun f => isfile w (path_join confd f)) confs in
  read_conf_d_loop confd confs (VDict []).

(** [confd] after the [if "conf_d" in cfg: ... elif ...:] statement *)
Definition conf_d_of (cfgfile : string) (cfg : list (string * value))
  : except value :=
  match dict_get cfg "conf_d" with
  | Some confd =>
      if truthy confd then
        if negb (isinstance confd TStr) then
          Raise (TypeError ("Config file " ++ cfgfile
                   ++ " contains 'conf_d' with non-string type " ++ obj_name confd))
        else
          match confd with
          | VStr s => Return (VStr (strip s))
          | _ => Return confd
          end
      else Return confd
  | None =>
      if isdir w (cfgfile ++ ".d") then Return (VStr (cfgfile ++ ".d"))
      else Return (VBool false)
  end.

(** [read_conf] only returns dictionaries ([read_conf_returns_dict] below), so
    the cases for another [cfg] are never taken; likewise [confd] is a
    string whenever it is true. *)
Definition read_conf_with_confd (cfgfile : string) : M value :=
  do cfg <- read_conf cfgfile;
  match cfg with
  | VDict items =>
      do confd <- lift (conf_d_of cfgfile items);
      if negb (truthy confd) then ret cfg
      else
        match confd with
        | VStr d =>
            if negb (isdir w d) then ret cfg
            else
              do frags <- read_conf_d d;
              lift (mergedict frags cfg)
        | _ => raise (TypeError "coercing to Unicode: need string or buffer")
        end
  | _ => raise (TypeError ("argument of type '" ++ obj_name cfg ++ "' is not iterable"))
  end.

Definition read_cc_from_cmdline (cmdline : option string) : M string :=
  do cmdline <- match cmdline with
                | None => get_cmdline
                | Some c => ret c
                end;
  ret (cc_from_cmdline cmdline).

Definition merge_base_cfg (cfgfile : string) (cfg_builtin : value) : M value :=
  do syscfg <- read_conf_with_confd cfgfile;
  do kern_contents <- read_cc_from_cmdline None;
  do kerncfg <- (if truthy (VStr kern_contents)
                 then load_yaml kern_contents (VDict []) [TDict]
                 else ret (VDict []));
  (* kernel parameters override system config *)
  do combined <- lift (mergedict kerncfg syscfg);
  if truthy cfg_builtin then lift (mergedict combined cfg_builtin)
  else ret combined.

(** ** Reading seeds *)

Definition read_file_or_url (url : string) (timeout retries file_retries : Z)
  : M (string * Z) :=
  let url := if startswith url "/" then "file://" ++ url else url in
  let retries := if startswith url "file://" then file_retries else retries in
  do_ emit (Fetch url timeout retries);
  lift (readurl w url timeout retries).

(** Defaults of the keyword arguments [retries] and [file_retries] of
    [read_seeded]. *)
Definition retries_default : Z := 10.
Definition file_retries_default : Z := 0.

Definition read_seeded (base ext : string) (timeout retries file_retries : Z)
  : M (value * value) :=
  let base := if startswith base "/" then "file://" ++ base else base in
  (* default retries for file is 0. for network is 10 *)
  let retries := if startswith base "file://" then file_retries else retries in
  do urls <- (if find base "%s" 0 >=? 0 then
                do ud_url <- lift (format base ("user-data" ++ ext));
                do md_url <- lift (format base ("meta-data" ++ ext));
                ret (ud_url, md_url)
              else ret (base ++ "user-data" ++ ext, base ++ "meta-data" ++ ext));
  let '(ud_url, md_url) := urls in
  do mdr <- read_file_or_url md_url timeout retries file_retries;
  let '(md_str, msc) := mdr in
  do md <- (if truthy (VStr md_str) && ok_http_code w msc
            then load_yaml md_str (VDict []) [TDict]
            else ret VNone);
  do udr <- read_file_or_url ud_url timeout retries file_retries;
  let '(ud_str, usc) := udr in
  let ud := if truthy (VStr ud_str) && ok_http_code w usc then VStr ud_str else VNone in
  ret (md, ud).

(** [read_optional_seed(fill, base, ext, timeout)]: the result and the
    [fill] dictionary as the call leaves it. *)
Definition read_optional_seed (fill : gmap string value) (base ext : string)
  (timeout : Z) : M (bool * gmap string value) :=
  try_except
    (do mdud <- read_seeded base ext timeout retries_default file_retries_default;
     let '(md, ud) := mdud in
     let fill := <["user-data" := ud]> fill in
     let fill := <["meta-data" := md]> fill in
     ret (true, fill))
    (fun e =>
       match e with
       | OSError errno => if errno =? ENOENT then ret (false, fill) else raise e
       | _ => raise e
       end).

End Util.

(** ** Reading options of a configuration *)

(** [str(n)] for an [int] *)
Definition str_of_int (n : Z) : string := NilZero.string_of_int (Z.to_int n).

(** [repr(v)]; a dictionary is shown in its iteration order. *)
Fixpoint py_repr (v : value) : string :=
  match v with
  | VNone => "None"
  | VBool b => if b then "True" else "False"
  | VInt n => str_of_int n
  | VStr s => repr s
  | VList l => "[" ++ join ", " (map py_repr l) ++ "]"
  | VDict d =>
      "{" ++ join ", " (map (fun kv => repr (fst kv) ++ ": " ++ py_repr (snd kv)) d) ++ "}"
  end.

(** [str(v)]: a [str] is itself, anything else is shown as by [repr]. *)
Definition py_str (v : value) : string :=
  match v with
  | VStr s => s
  | _ => py_repr v
  end.

Definition lower_char (c : ascii) : ascii :=
  let n := nat_of_ascii c in
  if (65 <=? n)%nat && (n <=? 90)%nat then ascii_of_nat (n + 32) else c.

(** [s.lower()] *)
Fixpoint lower (s : string) : string :=
  match s with
  | EmptyString => EmptyString
  | String c s' => String (lower_char c) (lower s')
  end.

(** [a is b] for a [bool] [b]: [True] and [False] are single objects. *)
Definition is_bool_object (a : value) (b : bool) : bool :=
  match a with
  | VBool a' => Bool.eqb a' b
  | _ => false
  end.

Definition translate_bool (val : value) : value :=
  if negb (truthy val) then VBool false
  else if is_bool_object val (isinstance val TBool) then val
  else if existsb (String.eqb (strip (lower (py_str val)))) ["true"; "1"; "on"; "yes"]
       then VBool true
  else VBool false.

(** [tok in l] for a list: some element equals the [str]. *)
Definition in_list (tok : string) (l : list value) : bool :=
  existsb (fun x => match x with VStr s => String.eqb s tok | _ => false end) l.

(** The test [key in yobj] followed, where it holds, by [yobj[key]]:
    [None] stands for a key that is not in [yobj].  A [str] or a list that
    contains the key cannot be indexed by it, and anything else cannot be
    searched. *)
Definition lookup_key (yobj : value) (key : string) : except (option value) :=
  match yobj with
  | VDict d => Return (dict_get d key)
  | VStr s =>
      if find s key 0 >=? 0
      then Raise (TypeError "string indices must be integers, not str")
      else Return None
  | VList l =>
      if in_list key l
      then Raise (TypeError "list indices must be integers, not str")
      else Return None
  | _ => Raise (TypeError ("argument of type '" ++ obj_name yobj ++ "' is not iterable"))
  end.

Definition get_cfg_option_bool (yobj : value) (key : string) (default : value)
  : except value :=
  match lookup_key yobj key with
  | Return None => Return default
  | Return (Some v) => Return (translate_bool v)
  | Raise e => Raise e
  end.

Definition get_cfg_option_str (yobj : value) (key : string) (default : value)
  : except value :=
  match lookup_key yobj key with
  | Return None => Return default
  | Return (Some v) => Return v
  | Raise e => Raise e
  end.

(** [get_cfg_by_path(yobj, keyp, default)]: the loop over [keyp]. *)
Fixpoint get_cfg_by_path (yobj : value) (keyp : list string) (default : value)
  : except value :=
  match keyp with
  | [] => Return yobj
  | tok :: rest =>
      match lookup_key yobj tok with
      | Return None => Return default
      | Return (Some cur) => get_cfg_by_path cur rest default
      | Raise e => Raise e
      end
  end.

(** ** Text helpers *)

(** [s.split(sep)] for a separator of one character *)
Fixpoint split_char (sep : ascii) (s : string) : list string :=
  match s with
  | EmptyString => [EmptyString]
  | String c s' =>
      if Ascii.eqb c sep then EmptyString :: split_char sep s'
      else
        match split_char sep s' with
        | word :: words => String c word :: words
        | [] => [String c EmptyString]
        end
  end.

(** [s.split(sep, 1)] for a separator of one character *)
Fixpoint split_once (sep : ascii) (s : string) : list string :=
  match s with
  | EmptyString => [EmptyString]
  | String c s' =>
      if Ascii.eqb c sep then [EmptyString; s']
      else
        match split_once sep s' with
        | word :: words => String c word :: words
        | [] => [String c EmptyString]
        end
  end.

(** [s.split()]: the words between runs of whitespace *)
Fixpoint split_ws (s : string) : list string :=
  match s with
  | EmptyString => []
  | String c s' =>
      if is_space c then split_ws s'
      else
        match s' with
        | EmptyString => [String c EmptyString]
        | String c' _ =>
            if is_space c' then String c EmptyString :: split_ws s'
            else
              match split_ws s' with
              | word :: words => String c word :: words
              | [] => [String c EmptyString]
              end
        end
  end.

Definition LF : ascii := "010"%char.
Definition CR : ascii := "013"%char.

(** [s.splitlines()] on a [str]: lines end at a line feed, a carriage
    return, or a carriage return followed by a line feed. *)
Fixpoint splitlines (s : string) : list string :=
  match s with
  | EmptyString => []
  | String c s' =>
      if Ascii.eqb c LF then EmptyString :: splitlines s'
      else if Ascii.eqb c CR then
        EmptyString :: match s' with
                       | String c' s'' => if Ascii.eqb c' LF then splitlines s''
                                          else splitlines s'
                       | EmptyString => []
                       end
      else
        match splitlines s' with
        | line :: lines => String c line :: lines
        | [] => [String c EmptyString]
        end
  end.

(** [FN_REPLACEMENTS.items()]; [os.sep] is a slash. *)
Definition FN_REPLACEMENTS : list (string * string) := [("/", "_")].

Definition clean_filename (fn : string) : string :=
  strip (fold_left (fun fn kv => replace fn (fst kv) (snd kv)) FN_REPLACEMENTS fn).

(** [s[i]] for [0 <= i < len(s)] *)
Definition char_at (s : string) (i : Z) : option ascii := String.get (Z.to_nat i) s.

Definition dos2unix (contents : string) : string :=
  (* find first end of line *)
  let pos := find contents nl 0 in
  if (pos <=? 0) ||
     negb (match char_at contents (pos - 1) with
           | Some c => Ascii.eqb c CR
           | None => false
           end)
  then contents
  else replace contents (String CR nl) nl.

(** *** pipe_in_out *)

(** [fh.read(size)] on what is left of an open file: the data read and
    what is left after it; a negative size reads everything. *)
Definition fh_read (rest : string) (size : Z) : string * string :=
  if size <? 0 then (rest, EmptyString)
  else (substring 0 (Z.to_nat size) rest, drop (Z.to_nat size) rest).

(** The loop ends because every read that returns data leaves less. *)
Lemma fh_read_decreases rest size :
  fst (fh_read rest size) <> EmptyString ->
  (String.length (snd (fh_read rest size)) < String.length rest)%nat.
Proof.
  assert (Hle : forall n s, (String.length (drop n s) <= String.length s)%nat).
  { induction n as [|n IH]; intros [|c s]; simpl; try lia.
    specialize (IH s). lia. }
  unfold fh_read. destruct (size <? 0); simpl.
  - destruct rest; [congruence|simpl; lia].
  - destruct (Z.to_nat size) as [|n], rest as [|c rest]; simpl; try congruence.
    intros _. specialize (Hle n rest). lia.
Qed.

(** The loop [while True] of [pipe_in_out]: the content of [out_fh], the
    value of [bytes_piped] and the arguments [chunk_cb] was called with,
    when it ends. *)
Equations pipe_loop (chunk_size : Z) (chunk_cb : bool) (rest out_fh : string)
    (bytes_piped : Z) (calls : list Z) : string * Z * list Z
  by wf (String.length rest) lt :=
  pipe_loop chunk_size chunk_cb rest out_fh bytes_piped calls
    with string_dec (fst (fh_read rest chunk_size)) EmptyString => {
    | left _ := (out_fh, bytes_piped, calls)
    | right _ :=
        pipe_loop chunk_size chunk_cb (snd (fh_read rest chunk_size))
          (out_fh ++ fst (fh_read rest chunk_size))
          (bytes_piped + Z.of_nat (String.length (fst (fh_read rest chunk_size))))
          (if chunk_cb
           then (calls ++ [bytes_piped
                           + Z.of_nat (String.length (fst (fh_read rest chunk_size)))])%list
           else calls) }.
Next Obligation. now apply fh_read_decreases. Qed.

(** [pipe_in_out(in_fh, out_fh, chunk_size, chunk_cb)] for an input with
    [in_fh] left to read and an output that holds [out_fh]. *)
Definition pipe_in_out (in_fh out_fh : string) (chunk_size : Z) (chunk_cb : bool)
  : M (string * Z * list Z) :=
  do_ LOG_debug "Transferring the contents of %s to %s in chunks of size %sb";
  ret (pipe_loop chunk_size chunk_cb in_fh out_fh 0 []).

(** The default of the keyword argument [chunk_size]. *)
Definition chunk_size_default : Z := 1024.

(** *** shellify *)

(** The value of [escaped]: a quote, a backslash and two quotes. *)
Definition escaped : string := "'\''".

(** One item of a command that is a list, as appended to [fixed]. *)
Definition shell_protect (f : value) : string :=
  "'" ++ replace (py_str f) "'" escaped ++ "'".

Definition shellify (cmdlist : list value) (add_header : bool) : string :=
  let content := if add_header then "#!/bin/sh" ++ nl else "" in
  fold_left
    (fun content args =>
       match args with
       | VList items => content ++ join " " (map shell_protect items) ++ nl
       | _ => content ++ py_str args ++ nl
       end)
    cmdlist content.

(** *** is_ipv4 *)

Section Ipv4.

(** [int(x)] for a [str]: the number, or [None] where it raises
    [ValueError]. *)
Variable int_of : string -> option Z.

(** The list comprehension over the parts; [None] when [int] raises. *)
Fixpoint octets (toks : list string) : option (list string) :=
  match toks with
  | [] => Some []
  | x :: rest =>
      match int_of x with
      | None => None
      | Some n =>
          match octets rest with
          | None => None
          | Some kept => Some (if (n <? 256) && (n >? 0) then x :: kept else kept)
          end
      end
  end.

Definition is_ipv4 (instr : string) : bool :=
  let toks := split_char "." instr in
  if negb (length toks =? 4)%nat then false
  else
    match octets toks with
    | None => false
    | Some toks => (length toks =? 4)%nat
    end.

End Ipv4.

Section Files.

Variable w : world.

(** The loop of [get_fqdn_from_hosts] over the lines of the file: the
    value of [fqdn] when it ends. *)
Fixpoint hosts_scan (hostname : string) (lines : list string) : option string :=
  match lines with
  | [] => None
  | line :: rest =>
      let hashpos := find line "#" 0 in
      let line := if hashpos >=? 0 then slice line 0 hashpos else line in
      let line := strip line in
      if negb (truthy (VStr line)) then hosts_scan hostname rest
      else
        let toks := split_ws line in
        if (length toks <? 3)%nat then hosts_scan hostname rest
        else if existsb (String.eqb hostname) (skipn 2 toks)
             then Some (nth 1 toks "")
        else hosts_scan hostname rest
  end.

Definition get_fqdn_from_hosts (hostname filename : string) : M (option string) :=
  try_except
    (do contents <- load_file w filename;
     ret (hosts_scan hostname (splitlines contents)))
    (fun e =>
       match e with
       | IOError _ => ret None
       | _ => raise e
       end).

(** The loop of [get_proc_env] over the entries: [env] when it ends, or
    the [ValueError] of unpacking an entry without an equals sign. *)
Fixpoint proc_env_scan (toks : list string) (env : list (string * value))
  : except (list (string * value)) :=
  match toks with
  | [] => Return env
  | tok :: rest =>
      if String.eqb tok "" then proc_env_scan rest env
      else
        match split_once "=" tok with
        | [name; val] =>
            proc_env_scan rest
              (if truthy (VStr name) then dict_set env name (VStr val) else env)
        | _ => Raise (ValueError "need more than 1 value to unpack")
        end
  end.

Definition get_proc_env (pid : value) : M (list (string * value)) :=
  let fn := path_join (path_join "/proc/" (py_str pid)) "environ" in
  try_except
    (do contents <- load_file w fn;
     lift (proc_env_scan (split_char "000" contents) []))
    (fun e =>
       match e with
       | IOError _ | OSError _ => ret []
       | _ => raise e
       end).

End Files.

(** ** Example environments

    Small concrete environments for the examples below: a table standing
    for [yaml.load] on the documents they use, and a fetcher that serves
    [file://] locators from the example filesystem with status 200. *)

Definition yaml_table (docs : list (string * value)) (blob : string) : option value :=
  match List.find (fun d => String.eqb (fst d) blob) docs with
  | Some d => Some (snd d)
  | None => None
  end.

Definition example_docs : list (string * value) :=
  [("y: 2", VDict [("y", VInt 2)]);
   ("z: 3", VDict [("z", VInt 3)]);
   ("x: 9 ", VDict [("x", VInt 9)]);
   ("a: 1", VDict [("a", VInt 1)]);
   ("b: 2", VDict [("b", VInt 2)]);
   ("c: 3", VDict [("c", VInt 3)]);
   ("k: 1", VDict [("k", VInt 1)]);
   ("k: 2", VDict [("k", VInt 2)]);
   ("k: {a: 1}", VDict [("k", VDict [("a", VInt 1)])]);
   ("k: {a: 1} ", VDict [("k", VDict [("a", VInt 1)])]);
   ("conf_d: 5", VDict [("conf_d", VInt 5)]);
   ("instance-id: i-1", VDict [("instance-id", VStr "i-1")]);
   ("- a", VList [VStr "a"])].

(** Modelled from the spec: [uhelp.ok_http_code] belongs to
    [cloudinit/url_helper.py], which is not part of this file; the
    specification calls a status acceptable when it is 2xx-equivalent.
    Only the example environments use it. *)
Definition ok_2xx (status : Z) : bool := (200 <=? status) && (status <? 300).

Definition file_fetcher (files : gmap string node) (url : string)
  (timeout retries : Z) : except (string * Z) :=
  if startswith url "file://" then
    match files !! drop 7 url with
    | Some (File content) => Return (content, 200)
    | Some (FileErr n) => Raise (IOError n)
    | _ => Raise (OSError ENOENT)
    end
  else Raise (IOError 101).

Definition example_world (files : list (string * node)) : world :=
  {| fs := list_to_map files;
     environ := ∅;
     yaml_load := yaml_table example_docs;
     readurl := file_fetcher (list_to_map files);
     ok_http_code := ok_2xx |}.

Definition cloud_cfg : string := "/etc/cloud/cloud.cfg".
Definition cloud_cfg_d : string := "/etc/cloud/cloud.cfg.d".



(** A kernel command line that sets a key to a mapping and a system file
    that sets it to 1. *)
Definition kernel_order_world : world :=
  example_world
    [(cloud_cfg, File "k: 1");
     ("/proc/cmdline", File "ro cc: k: {a: 1} end_cc")].

(** Two fragments that set the same key. *)
Definition same_key_world : world :=
  example_world
    [(cloud_cfg_d, Dir ["10-a.cfg"; "20-b.cfg"]);
     ("/etc/cloud/cloud.cfg.d/10-a.cfg", File "k: 1");
     ("/etc/cloud/cloud.cfg.d/20-b.cfg", File "k: 2")].

(** Three fragments with distinct keys, beside entries that are not
    fragments: a name without the extension, a directory and a socket. *)
Definition three_fragments_world : world :=
  example_world
    [(cloud_cfg_d, Dir ["10-a.cfg"; "README"; "20-b.cfg"; "sub.cfg"; "sock.cfg"; "05-c.cfg"]);
     ("/etc/cloud/cloud.cfg.d/10-a.cfg", File "a: 1");
     ("/etc/cloud/cloud.cfg.d/20-b.cfg", File "b: 2");
     ("/etc/cloud/cloud.cfg.d/05-c.cfg", File "c: 3");
     ("/etc/cloud/cloud.cfg.d/README", File "k: 1");
     ("/etc/cloud/cloud.cfg.d/sub.cfg", Dir []);
     ("/etc/cloud/cloud.cfg.d/sock.cfg", Special)].

(** A fragment directory with one unparsable and one unreadable fragment. *)
Definition bad_fragment_world : world :=
  example_world
    [(cloud_cfg_d, Dir ["10-a.cfg"; "20-bad.cfg"; "30-c.cfg"]);
     ("/etc/cloud/cloud.cfg.d/10-a.cfg", File "a: 1");
     ("/etc/cloud/cloud.cfg.d/20-bad.cfg", File "{{");
     ("/etc/cloud/cloud.cfg.d/30-c.cfg", File "c: 3")].

Definition unreadable_fragment_world : world :=
  example_world
    [(cloud_cfg_d, Dir ["10-a.cfg"; "20-b.cfg"]);
     ("/etc/cloud/cloud.cfg.d/10-a.cfg", File "a: 1");
     ("/etc/cloud/cloud.cfg.d/20-b.cfg", FileErr EACCES)].

Definition unreadable_cfg_world : world :=
  example_world [(cloud_cfg, FileErr EACCES)].

Definition bad_conf_d_world : world :=
  example_world [(cloud_cfg, File "conf_d: 5")].

(** Seed directories: valid meta-data with user-data missing, or empty. *)
Definition seed_missing_ud_world : world :=
  example_world [("/seed/meta-data", File "instance-id: i-1")].

Definition seed_empty_ud_world : world :=
  example_world
    [("/seed/meta-data", File "instance-id: i-1");
     ("/seed/user-data", File "")].

(** A file whose name ends in a percent sign and an s. *)
Definition seed_odd_world : world :=
  example_world [("/seed/x%s", File "instance-id: i-1")].

(** A [fill] dictionary with an entry of its own, before and after a
    call that stores a metadata document and no user-data. *)
Definition example_fill : gmap string value := {["instance" := VInt 7]}.

Definition example_fill_after : gmap string value :=
  <["meta-data" := VDict [("instance-id", VStr "i-1")]]>
    (<["user-data" := VNone]> example_fill).

Definition seed_complete_world : world :=
  example_world
    [("/seed/meta-data", File "instance-id: i-1");
     ("/seed/user-data", File "#cloud-config")].

(** ** Vocabulary for the seed functions *)

(** The locators [read_seeded] builds from the normalized base: user-data
    first, then meta-data. *)
Definition seed_urls (nbase ext : string) : except (string * string) :=
  if find nbase "%s" 0 >=? 0 then
    match format nbase ("user-data" ++ ext) with
    | Raise e => Raise e
    | Return ud_url =>
        match format nbase ("meta-data" ++ ext) with
        | Raise e => Raise e
        | Return md_url => Return (ud_url, md_url)
        end
    end
  else Return (nbase ++ "user-data" ++ ext, nbase ++ "meta-data" ++ ext).

Definition normalize (url : string) : string :=
  if startswith url "/" then "file://" ++ url else url.

Definition file_backed (url : string) : bool := startswith (normalize url) "file://".

Definition is_fetch (ev : event) : bool :=
  match ev with Fetch _ _ _ => true | Log _ _ => false end.

Definition fetches (tr : list event) : list event := filter is_fetch tr.

(** The value kept for a fetched document: present only with content and
    an acceptable status. *)
Definition fetched_ok (w : world) (content : string) (status : Z) : bool :=
  truthy (VStr content) && ok_http_code w status.

(** The document [load_yaml] makes of a blob with an empty-dictionary
    default. *)
Definition yaml_dict_or_empty (w : world) (blob : string) : value :=
  match yaml_load w blob with
  | Some (VDict d) => VDict d
  | _ => VDict []
  end.

(** ** Vocabulary of the statements *)

(** [a] does not sort before [b]: the order of [sorted(..., reverse=True)]. *)
Definition descending (a b : string) : Prop := String.ltb a b = false.


Inductive side : Type := Source | Candidate.

(** The [TypeError] raised for a non-dictionary operand [v] on [sd]. *)
Definition merge_error (sd : side) (v : value) : exn :=
  TypeError
    (match sd with
     | Source => "Attempting to merge a non dictionary source type: "
     | Candidate => "Attempting to merge a non dictionary candidate type: "
     end ++ obj_name v).


(** [c] raises nothing but exceptions in [P]. *)
Definition raises_only {A} (P : exn -> Prop) (c : M A) : Prop :=
  forall tr e tr', c tr = (Raise e, tr') -> P e.

(** Whatever [c] returns is in [Q]. *)
Definition returns_only {A} (Q : A -> Prop) (c : M A) : Prop :=
  forall tr a tr', c tr = (Return a, tr') -> Q a.

Definition is_dict_value (v : value) : Prop := exists items, v = VDict items.

(** What remains of [read_conf] is an [IOError] other than [ENOENT]. *)
Definition io_failure (e : exn) : Prop := exists n, e = IOError n /\ n <> ENOENT.

(** The records [read_conf] logs for a readable file whose content does
    not load as a dictionary. *)
Definition unparsable_log : list event :=
  [Log DEBUG "Reading from %s";
   Log DEBUG "Transferring the contents of %s to %s in chunks of size %sb";
   Log DEBUG "Read %s bytes from %s";
   Log DEBUG "Attempting to load yaml from string of length %s with allowed root types %s";
   Log EXCEPTION "Failed loading yaml due to: %s"].

Definition loads_as_dict (w : world) (content : string) : bool :=
  match yaml_load w content with
  | Some v => is_dict v
  | None => false
  end.

Definition merge_failure (e : exn) : Prop :=
  exists sd v, is_dict v = false /\ e = merge_error sd v.

Definition conf_d_failure (cfgfile : string) (e : exn) : Prop :=
  exists v, isinstance v TStr = false /\
    e = TypeError ("Config file " ++ cfgfile
                     ++ " contains 'conf_d' with non-string type " ++ obj_name v).

Definition listing_failure (e : exn) : Prop := exists n, e = OSError n.

Definition resolution_failure (cfgfile : string) (e : exn) : Prop :=
  merge_failure e \/ conf_d_failure cfgfile e \/ io_failure e \/ listing_failure e.


Definition retry_budget (retries file_retries : Z) (url : string) : Z :=
  if file_backed url then file_retries else retries.

(** Case analysis on the ways a constant string splits in two. *)
Ltac split_prefix H :=
  repeat match type of H with
         | _ = ?t1 ++ _ =>
             destruct t1 as [|? ?]; cbn [String.append] in H;
             [ subst | first [ discriminate H | injection H as ? H; subst ] ]
         end.

(** *** Characters of a string *)

(** [c in s] for a character [c] *)
Fixpoint has_char (c : ascii) (s : string) : bool :=
  match s with
  | EmptyString => false
  | String a s' => Ascii.eqb a c || has_char c s'
  end.

(** Characters that [lower] and [strip] leave alone. *)
Definition plain_char (c : ascii) : bool :=
  negb (is_space c) && Ascii.eqb (lower_char c) c.

Fixpoint plain (s : string) : bool :=
  match s with
  | EmptyString => true
  | String c s' => plain_char c && plain s'
  end.

Definition true_words : list string := ["true"; "1"; "on"; "yes"].

(** Text with one line per item, each ended by [eol]. *)
Definition text_of (eol : string) (lines : list string) : string :=
  String.concat "" (map (fun l => l ++ eol) lines).

(** *** How [sh] reads what shellify writes

    The part of the shell's word splitting and quote removal that covers
    commands written from lists: between single quotes every character
    stands for itself up to the closing quote; outside them a backslash
    makes the next character stand for itself, or joins two lines when
    that character is a line feed; a space ends a word and a line feed
    ends a command.  Any other character outside quotes is not read. *)

Inductive sh_mode : Type := Unquoted | Quoted | Escaped.

Definition word_so_far (word : option string) : string :=
  match word with
  | Some text => text
  | None => EmptyString
  end.

Definition end_word (fields : list string) (word : option string) : list string :=
  match word with
  | Some text => (fields ++ [text])%list
  | None => fields
  end.

Fixpoint sh_read (m : sh_mode) (word : option string) (fields : list string)
    (cmds : list (list string)) (s : string) : option (list (list string)) :=
  match s with
  | EmptyString =>
      match m with
      | Unquoted =>
          match end_word fields word with
          | [] => Some cmds
          | last => Some (cmds ++ [last])%list
          end
      | _ => None
      end
  | String c rest =>
      match m with
      | Quoted =>
          if Ascii.eqb c "'" then sh_read Unquoted word fields cmds rest
          else sh_read Quoted (Some (word_so_far word ++ String c EmptyString))
                 fields cmds rest
      | Escaped =>
          if Ascii.eqb c LF then sh_read Unquoted word fields cmds rest
          else sh_read Unquoted (Some (word_so_far word ++ String c EmptyString))
                 fields cmds rest
      | Unquoted =>
          if Ascii.eqb c "'" then sh_read Quoted (Some (word_so_far word)) fields cmds rest
          else if Ascii.eqb c "\" then sh_read Escaped word fields cmds rest
          else if Ascii.eqb c " " then sh_read Unquoted None (end_word fields word) cmds rest
          else if Ascii.eqb c LF
               then sh_read Unquoted None [] (cmds ++ [end_word fields word])%list rest
          else None
      end
  end.

(** The commands of a script, as lists of words. *)
Definition sh_commands (script : string) : option (list (list string)) :=
  sh_read Unquoted None [] [] script.

(** *** The environment file of a process *)

Definition NUL : ascii := "000"%char.

(** The content of [/proc/<pid>/environ] for the given variables: each
    [name=value] is followed by a null character. *)
Definition environ_text (pairs : list (string * string)) : string :=
  text_of (String NUL EmptyString) (map (fun nv => fst nv ++ "=" ++ snd nv) pairs).

(** The dictionary that assigning the variables in turn builds. *)
Definition dict_of (pairs : list (string * string)) : list (string * value) :=
  fold_left (fun env nv => dict_set env (fst nv) (VStr (snd nv))) pairs [].

Definition environ_path (pid : value) : string :=
  path_join (path_join "/proc/" (py_str pid)) "environ".

Definition unpack_error : exn := ValueError "need more than 1 value to unpack".

(** *** A hosts file *)

(** A field of a hosts file: not empty, without whitespace and without
    the comment sign. *)
Fixpoint field_chars (s : string) : bool :=
  match s with
  | EmptyString => true
  | String c s' => negb (is_space c) && negb (Ascii.eqb c "#") && field_chars s'
  end.

Definition is_field (s : string) : bool :=
  negb (String.eqb s EmptyString) && field_chars s.

(** An entry: address, canonical name and aliases. *)
Definition host_entry : Type := string * string * list string.

Definition entry_fields (e : host_entry) : list string :=
  let '(address, canonical, aliases) := e in address :: canonical :: aliases.

(** The file with one line per entry, the fields separated by a space. *)
Definition hosts_text (entries : list host_entry) : string :=
  text_of nl (map (fun e => join " " (entry_fields e)) entries).

(** The canonical name of the first entry that lists [hostname] among
    its aliases. *)
Fixpoint canonical_of_alias (hostname : string) (entries : list host_entry)
  : option string :=
  match entries with
  | [] => None
  | (_, canonical, aliases) :: rest =>
      if existsb (String.eqb hostname) aliases then Some canonical
      else canonical_of_alias hostname rest
  end.

(** An entry whose address, canonical name and aliases are fields. *)
Definition entry_ok (e : host_entry) : Prop :=
  Forall (fun f => is_field f = true) (entry_fields e).

(** A part of an address that [int] reads as a number from 1 to 255. *)
Definition is_octet (int_of : string -> option Z) (part : string) : Prop :=
  exists n, int_of part = Some n /\ 0 < n < 256.

(** [a] directly followed by [b] somewhere in [s] *)
Fixpoint has_pair (a b : ascii) (s : string) : bool :=
  match s with
  | String x ((String y _) as rest) => (Ascii.eqb x a && Ascii.eqb y b) || has_pair a b rest
  | _ => false
  end.

Definition starts_with_char (c : ascii) (s : string) : bool :=
  match s with
  | String x _ => Ascii.eqb x c
  | EmptyString => false
  end.

(** *** Settings of a configuration *)

(** The chain of keys [p] leads to [v] in [y], whatever default
    [get_cfg_by_path] is given. *)
Definition at_path (y : value) (p : list string) (v : value) : Prop :=
  forall default, get_cfg_by_path y p default = Return v.

(** A setting: a value other than a dictionary at the end of a chain of
    keys. *)
Definition setting (y : value) (p : list string) (v : value) : Prop :=
  at_path y p v /\ is_dict v = false.

(** The value a chain of keys leads to through nested dictionaries. *)
Fixpoint lookup_path (y : value) (p : list string) : option value :=
  match p with
  | [] => Some y
  | k :: rest =>
      match y with
      | VDict d =>
          match dict_get d k with
          | Some x => lookup_path x rest
          | None => None
          end
      | _ => None
      end
  end.

(** [y] has every setting of [x], with the same value. *)
Definition keeps_settings (x y : value) : Prop :=
  forall p v, setting x p v -> setting y p v.

(** The same in terms of [lookup_path]. *)
Definition keeps (x y : value) : Prop :=
  forall p v, lookup_path x p = Some v -> is_dict v = false -> lookup_path y p = Some v.




(** The environment [w] with [names] as what [os.listdir(confd)] returns. *)
Definition with_listing (w : world) (confd : string) (names : list string) : world :=
  World (<[confd := Dir names]> (fs w)) (environ w) (yaml_load w) (readurl w)
        (ok_http_code w).

(** * Properties *)

(** ** Strings *)

Lemma append_nil_r s : s ++ "" = s.
Proof. induction s; simpl; congruence. Qed.

Lemma append_assoc a b c : (a ++ b) ++ c = a ++ b ++ c.
Proof. induction a; simpl; congruence. Qed.

Lemma length_append a b :
  String.length (a ++ b) = (String.length a + String.length b)%nat.
Proof. induction a; simpl; congruence. Qed.

Lemma prefix_cons a p b s :
  String.prefix (String a p) (String b s) = Ascii.eqb a b && String.prefix p s.
Proof.
  simpl. destruct (ascii_dec a b) as [->|Hne].
  - now rewrite Ascii.eqb_refl.
  - apply Ascii.eqb_neq in Hne. now rewrite Hne.
Qed.

Lemma prefix_app p s : String.prefix p (p ++ s) = true.
Proof.
  induction p as [|a p IH]; simpl; [now destruct s|].
  destruct (ascii_dec a a); [exact IH|congruence].
Qed.

Lemma prefix_drop p : forall s,
  String.prefix p s = true -> s = p ++ drop (String.length p) s.
Proof.
  induction p as [|a p IH]; intros s H; [reflexivity|].
  destruct s as [|b s]; [discriminate|].
  rewrite prefix_cons in H. apply andb_true_iff in H as [Hab Hp].
  apply Ascii.eqb_eq in Hab. subst. simpl. f_equal. now apply IH.
Qed.

Lemma drop_0 s : drop 0 s = s.
Proof. now destruct s. Qed.

Lemma drop_nil n : drop n "" = "".
Proof. now destruct n. Qed.


Lemma drop_drop n : forall m s, drop n (drop m s) = drop (m + n) s.
Proof.
  intros m. revert n. induction m as [|m IH]; intros n s.
  - now rewrite drop_0.
  - destruct s as [|c s]; [now rewrite !drop_nil|]. apply IH.
Qed.

Lemma length_drop n : forall s, String.length (drop n s) = (String.length s - n)%nat.
Proof.
  induction n as [|n IH]; intros [|c s]; simpl; try lia. apply IH.
Qed.

Lemma substring_drop n : forall m s, substring n m s = substring 0 m (drop n s).
Proof.
  induction n as [|n IH]; intros m [|c s]; simpl; try reflexivity.
  - now destruct m.
  - apply IH.
Qed.

Lemma substring_full s : substring 0 (String.length s) s = s.
Proof. induction s; simpl; congruence. Qed.

Lemma substring_to_end n s : substring n (String.length s - n) s = drop n s.
Proof. now rewrite substring_drop, <- length_drop, substring_full. Qed.


Lemma index_nil n sub : sub <> "" -> String.index n sub "" = None.
Proof. intros H. destruct n, sub; simpl; congruence. Qed.

Lemma index_drop sub : sub <> "" -> forall s k,
  String.index k sub s = option_map (fun i => (k + i)%nat) (String.index 0 sub (drop k s)).
Proof.
  intros Hne. induction s as [|c s IH]; intros k.
  - rewrite drop_nil, !index_nil by assumption. reflexivity.
  - destruct k as [|k].
    + rewrite drop_0. now destruct (String.index 0 sub (String c s)).
    + cbn [String.index drop]. rewrite IH.
      now destruct (String.index 0 sub (drop k s)).
Qed.

Lemma index_past_end sub s k :
  sub <> "" -> (String.length s <= k)%nat -> String.index k sub s = None.
Proof.
  intros Hne Hk. destruct (String.index k sub s) eqn:Hi; [|reflexivity].
  apply index_bounds in Hi. destruct sub; [congruence|]. simpl in Hi. lia.
Qed.


(** ** The command-line scanner *)
Lemma blocks_from_skip m : forall n s, spec_blocks_from m n s = spec_blocks_from m 0 (drop n s).
Proof.
  induction n as [|n IH]; intros s.
  - now rewrite drop_0.
  - destruct s as [|c s]; [reflexivity|]. cbn [spec_blocks_from drop]. apply IH.
Qed.

Lemma blocks_outside s :
  spec_blocks_from Outside 0 s =
  match String.index 0 tag_begin s with
  | None => []
  | Some i => spec_blocks_from Inside 0 (drop (i + String.length tag_begin) s)
  end.
Proof.
  induction s as [|c s IH]; [reflexivity|].
  cbn [spec_blocks_from String.index].
  destruct (String.prefix tag_begin (String c s)).
  - rewrite blocks_from_skip. reflexivity.
  - rewrite IH. now destruct (String.index 0 tag_begin s).
Qed.

Lemma blocks_inside s :
  spec_blocks_from Inside 0 s =
  match String.index 0 tag_end s with
  | None => [s]
  | Some j => substring 0 j s :: spec_blocks_from Outside 0 (drop (j + String.length tag_end) s)
  end.
Proof.
  induction s as [|c s IH]; [reflexivity|].
  cbn [spec_blocks_from String.index].
  destruct (String.prefix tag_end (String c s)).
  - rewrite blocks_from_skip. reflexivity.
  - rewrite IH. now destruct (String.index 0 tag_end s).
Qed.

Lemma cc_scan_eq cmdline begin tokens :
  cc_scan cmdline begin tokens =
  if begin <? 0 then tokens
  else cc_scan cmdline (next_begin cmdline begin) (tokens ++ [block_token cmdline begin])%list.
Proof.
  rewrite cc_scan_equation_1.
  destruct (Z_lt_ge_dec begin 0) as [H|H]; simpl.
  - destruct (Z.ltb_spec begin 0); [reflexivity|lia].
  - destruct (Z.ltb_spec begin 0); [lia|reflexivity].
Qed.

Lemma find_drop s sub (k : nat) :
  sub <> "" ->
  find s sub (Z.of_nat k) =
  match String.index 0 sub (drop k s) with
  | Some i => Z.of_nat (k + i)
  | None => -1
  end.
Proof.
  intros Hne. unfold find. rewrite Nat2Z.id, (index_drop sub Hne).
  now destruct (String.index 0 sub (drop k s)).
Qed.

Lemma tag_begin_ne : tag_begin <> "". Proof. discriminate. Qed.
Lemma tag_end_ne : tag_end <> "". Proof. discriminate. Qed.

Lemma cc_scan_blocks cmdline : forall n k tokens,
  (String.length cmdline - k < n)%nat ->
  cc_scan cmdline (find cmdline tag_begin (Z.of_nat k)) tokens =
  (tokens ++ map unescape (spec_blocks_from Outside 0 (drop k cmdline)))%list.
Proof.
  induction n as [|n IH]; intros k tokens Hn; [lia|].
  rewrite cc_scan_eq, blocks_outside, (find_drop _ _ _ tag_begin_ne).
  destruct (String.index 0 tag_begin (drop k cmdline)) as [i|] eqn:Hi.
  2:{ simpl. now rewrite app_nil_r. }
  pose proof (index_bounds _ _ _ _ Hi) as [_ Hb]. rewrite length_drop in Hb.
  change (String.length tag_begin) with 3%nat in *.
  destruct (Z.ltb_spec (Z.of_nat (k + i)) 0); [lia|].
  rewrite drop_drop, Nat.add_assoc, blocks_inside.
  unfold next_begin, block_token, block_end.
  change begin_l with (Z.of_nat 3). change end_l with (Z.of_nat 6).
  rewrite <- Nat2Z.inj_add, (find_drop _ _ _ tag_end_ne).
  destruct (String.index 0 tag_end (drop (k + i + 3) cmdline)) as [j|] eqn:Hj.
  - pose proof (index_bounds _ _ _ _ Hj) as [_ Hbj]. rewrite length_drop in Hbj.
    change (String.length tag_end) with 6%nat in *.
    destruct (Z.ltb_spec (Z.of_nat (k + i + 3 + j)) 0); [lia|].
    rewrite <- Nat2Z.inj_add, IH by lia.
    rewrite drop_drop, <- app_assoc. simpl. do 3 f_equal.
    + unfold unescape, slice. f_equal. f_equal.
      rewrite Nat2Z.id. replace (Z.to_nat _) with j by lia.
      apply substring_drop.
    + f_equal. f_equal. lia.
  - change (-1 <? 0) with true. cbv iota.
    rewrite <- Nat2Z.inj_add.
    unfold find at 1. rewrite Nat2Z.id, index_past_end by (try lia; discriminate).
    rewrite cc_scan_eq. change (-1 <? 0) with true. cbv iota.
    simpl. f_equal. f_equal. unfold unescape, slice. f_equal. f_equal.
    rewrite Nat2Z.id. replace (Z.to_nat _) with (String.length cmdline - (k + i + 3))%nat by lia.
    apply substring_to_end.
Qed.

Lemma cc_from_cmdline_blocks cmdline :
  cc_from_cmdline cmdline = join nl (map unescape (spec_blocks cmdline)).
Proof.
  unfold cc_from_cmdline, spec_blocks.
  change 0 with (Z.of_nat 0).
  rewrite (cc_scan_blocks cmdline (S (String.length cmdline))) by lia.
  now rewrite drop_0.
Qed.

(** *** Occurrences of a tag *)




Lemma prefix_app_cases t : forall a b,
  String.prefix t (a ++ b) = true ->
  String.prefix t a = true \/
  exists t2, t = a ++ t2 /\ t2 <> "" /\ String.prefix t2 b = true.
Proof.
  induction t as [|x t IH]; intros a b H; [left; now destruct a|].
  destruct a as [|y a].
  - right. exists (String x t). repeat split; [discriminate|exact H].
  - change (String y a ++ b) with (String y (a ++ b)) in H.
    rewrite prefix_cons in *. apply andb_true_iff in H as [Hxy H].
    rewrite Hxy. apply Ascii.eqb_eq in Hxy. subst y.
    destruct (IH _ _ H) as [Hp | (t2 & -> & Hne & Hp)]; [now left|].
    right. exists t2. auto.
Qed.




(** *** read_cc_from_cmdline *)

Lemma read_cc_from_cmdline_given w cmdline tr :
  read_cc_from_cmdline w (Some cmdline) tr = (Return (cc_from_cmdline cmdline), tr).
Proof. reflexivity. Qed.





Example blocks_two :
  spec_blocks "ro cc: a: 1 end_cc quiet cc:b: 2" = [" a: 1 "; "b: 2"].
Proof. reflexivity. Qed.

Example cc_two_blocks :
  cc_from_cmdline "ro cc:a: 1 end_cc quiet cc:b: 2 end_cc"
  = "a: 1 " ++ nl ++ "b: 2 ".
Proof. reflexivity. Qed.

Example cc_escape_decoded :
  cc_from_cmdline "cc: a: 1\nb: 2 end_cc" = "a: 1" ++ nl ++ "b: 2 ".
Proof. reflexivity. Qed.

Example blocks_begin_inside_block :
  spec_blocks "cc: x cc: y end_cc z" = [" x cc: y "].
Proof. reflexivity. Qed.

(** C6 (as amended).  For every command line, [read_cc_from_cmdline]
    returns the bodies of the embedded blocks, in the order met and joined
    by newlines, each block running from just after a begin tag to the next
    end tag or to the end of the string; of each body only the leading
    whitespace is trimmed (trailing whitespace stays), and then every
    two-character backslash-n is decoded to a newline.  The line
    [cc:<newline>ssh_import_id: [bob]<newline>end_cc] yields
    [ssh_import_id: [bob]] followed by a newline. *)
Theorem read_cc_from_cmdline_blocks (w : world) (cmdline : string) (tr : list event) :
  read_cc_from_cmdline w (Some cmdline) tr
  = (Return (join nl (map unescape (spec_blocks cmdline))), tr) /\
  read_cc_from_cmdline w (Some ("cc:" ++ nl ++ "ssh_import_id: [bob]" ++ nl ++ "end_cc")) tr
  = (Return ("ssh_import_id: [bob]" ++ nl), tr).
Proof.
  split; [|reflexivity].
  now rewrite read_cc_from_cmdline_given, cc_from_cmdline_blocks.
Qed.

(** C6 (counterexample).  On the specification's own example the result
    is not [ssh_import_id: [bob]]: the newline before the end tag is kept,
    whether the [\n] of the example are newline characters (first line) or
    two-character escapes (second line, where the leading one is decoded
    after the trimming and so survives too). *)
Lemma read_cc_keeps_trailing_whitespace :
  cc_from_cmdline ("cc:" ++ nl ++ "ssh_import_id: [bob]" ++ nl ++ "end_cc")
  = "ssh_import_id: [bob]" ++ nl /\
  cc_from_cmdline "cc:\nssh_import_id: [bob]\nend_cc"
  = nl ++ "ssh_import_id: [bob]" ++ nl /\
  String.eqb (cc_from_cmdline ("cc:" ++ nl ++ "ssh_import_id: [bob]" ++ nl ++ "end_cc"))
             "ssh_import_id: [bob]" = false /\
  String.eqb (cc_from_cmdline "cc:\nssh_import_id: [bob]\nend_cc")
             "ssh_import_id: [bob]" = false.
Proof. repeat split; reflexivity. Qed.



(** ** Dictionaries *)

Lemma dict_get_set_eq d k v : dict_get (dict_set d k v) k = Some v.
Proof.
  induction d as [|[k' v'] d IH]; simpl.
  - now rewrite String.eqb_refl.
  - destruct (String.eqb k' k) eqn:E; simpl; rewrite E; auto.
Qed.

Lemma dict_get_set_ne d k k' v :
  k <> k' -> dict_get (dict_set d k v) k' = dict_get d k'.
Proof.
  intros Hne. induction d as [|[k0 v0] d IH]; simpl.
  - destruct (String.eqb_spec k k'); congruence.
  - destruct (String.eqb_spec k0 k); simpl.
    + subst. destruct (String.eqb_spec k k'); congruence.
    + now rewrite IH.
Qed.



(** ** mergedict *)

Lemma is_dict_true v : is_dict v = true -> exists items, v = VDict items.
Proof. destruct v; try discriminate; eauto. Qed.

Lemma mergedict_dicts s c :
  mergedict (VDict s) (VDict c) =
  match merge_items mergedict c s with
  | Return s' => Return (VDict s')
  | Raise e => Raise e
  end.
Proof. reflexivity. Qed.

Lemma mergedict_non_dict_source src cand :
  is_dict src = false -> mergedict src cand = Raise (merge_error Source src).
Proof. destruct src, cand; try discriminate; reflexivity. Qed.

Lemma mergedict_non_dict_candidate src cand :
  is_dict src = true -> is_dict cand = false ->
  mergedict src cand = Raise (merge_error Candidate cand).
Proof. destruct src, cand; try discriminate; reflexivity. Qed.

Lemma mergedict_empty_candidate s : mergedict (VDict s) (VDict []) = Return (VDict s).
Proof. reflexivity. Qed.





(** Induction on values that reaches the values stored in lists and
    dictionaries. *)
Lemma value_nested_ind (P : value -> Prop) :
  P VNone ->
  (forall b, P (VBool b)) ->
  (forall n, P (VInt n)) ->
  (forall s, P (VStr s)) ->
  (forall l, Forall P l -> P (VList l)) ->
  (forall items, Forall (fun kv => P (snd kv)) items -> P (VDict items)) ->
  forall v, P v.
Proof.
  intros HN HB HI HS HL HD.
  fix rec 1. intros [| b | n | s | l | items].
  - exact HN.
  - apply HB.
  - apply HI.
  - apply HS.
  - apply HL. induction l as [|x l IHl]; constructor; [apply rec | exact IHl].
  - apply HD. induction items as [|[k x] items IHi]; constructor; [apply rec | exact IHi].
Qed.

Lemma merge_items_raise_inv f c : forall s e,
  merge_items f c s = Raise e ->
  exists k a b, In (k, b) c /\ f a b = Raise e.
Proof.
  induction c as [|[k0 v0] c IH]; intros s e H; simpl in H; [discriminate|].
  destruct (dict_get s k0) as [cur|].
  - destruct (f cur v0) as [m|e0] eqn:Hf.
    + destruct (IH _ _ H) as (k & a & b & Hin & Hfe). exists k, a, b. split; [now right|auto].
    + inversion H; subst. exists k0, cur, v0. split; [now left|auto].
  - destruct (IH _ _ H) as (k & a & b & Hin & Hfe). exists k, a, b. split; [now right|auto].
Qed.

(** Every exception [mergedict] raises is one of its two [TypeError]s,
    naming the side and the type of a non-dictionary operand. *)
Lemma mergedict_raise_shape cand : forall src e,
  mergedict src cand = Raise e ->
  exists sd v, is_dict v = false /\ e = merge_error sd v.
Proof.
  induction cand as [| b | n | s | l IHl | items IH] using value_nested_ind;
    intros src e H.
  1-5: destruct (is_dict src) eqn:Hd;
    [ rewrite mergedict_non_dict_candidate in H by auto; inversion H;
      eexists Candidate, _; split; [|reflexivity]; reflexivity
    | rewrite mergedict_non_dict_source in H by auto; inversion H;
      exists Source, src; auto ].
  destruct (is_dict src) eqn:Hd.
  - destruct (is_dict_true _ Hd) as [s ->]. rewrite mergedict_dicts in H.
    destruct (merge_items mergedict items s) as [r|e0] eqn:Hm; [discriminate|].
    inversion H; subst.
    destruct (merge_items_raise_inv _ _ _ _ Hm) as (k & a & b & Hin & Hf).
    rewrite List.Forall_forall in IH. exact (IH (k, b) Hin a e Hf).
  - rewrite mergedict_non_dict_source in H by auto. inversion H.
    exists Source, src; auto.
Qed.



Example mergedict_fills_gaps :
  mergedict (VDict [("a", VInt 1)]) (VDict [("b", VInt 2)])
  = Return (VDict [("a", VInt 1); ("b", VInt 2)]).
Proof. reflexivity. Qed.

Example mergedict_nested :
  mergedict (VDict [("a", VDict [("x", VInt 1)])])
            (VDict [("a", VDict [("y", VInt 2)]); ("b", VNone)])
  = Return (VDict [("a", VDict [("x", VInt 1); ("y", VInt 2)]); ("b", VNone)]).
Proof. reflexivity. Qed.

(** C1 (code defect).  The docstring of [mergedict] promises that a key of
    [src] is never overridden by [cand]; but when both dictionaries hold a
    non-dictionary value under the same key, the recursive call
    [mergedict(src[k], v)] raises the [TypeError] meant for a non-dictionary
    source instead of keeping [src[k]]: merging {x: 1} with {x: 2} returns
    no document. *)
Theorem mergedict_scalar_collision_raises :
  mergedict (VDict [("x", VInt 1)]) (VDict [("x", VInt 2)])
  = Raise (TypeError "Attempting to merge a non dictionary source type: int").
Proof. reflexivity. Qed.



(** ** Reasoning about effectful code *)

Lemma bind_return_inv {A B} (c : M A) (k : A -> M B) tr b tr' :
  bind c k tr = (Return b, tr') ->
  exists a tr1, c tr = (Return a, tr1) /\ k a tr1 = (Return b, tr').
Proof.
  unfold bind. destruct (c tr) as [[a|e] tr1]; intros H; [eauto|discriminate].
Qed.

Lemma bind_raise_inv {A B} (c : M A) (k : A -> M B) tr e tr' :
  bind c k tr = (Raise e, tr') ->
  c tr = (Raise e, tr') \/
  exists a tr1, c tr = (Return a, tr1) /\ k a tr1 = (Raise e, tr').
Proof.
  unfold bind. destruct (c tr) as [[a|e0] tr1]; intros H; [right; eauto|].
  left. now inversion H.
Qed.

Lemma bind_return {A B} (c : M A) (k : A -> M B) tr a tr1 :
  c tr = (Return a, tr1) -> bind c k tr = k a tr1.
Proof. unfold bind. now intros ->. Qed.

Lemma bind_raise {A B} (c : M A) (k : A -> M B) tr e tr1 :
  c tr = (Raise e, tr1) -> bind c k tr = (Raise e, tr1).
Proof. unfold bind. now intros ->. Qed.

Lemma lift_inv {A} (r : except A) tr r' tr' :
  lift r tr = (r', tr') -> r = r' /\ tr' = tr.
Proof. unfold lift. intros H. now inversion H. Qed.

Lemma raises_only_ret {A} P (a : A) : raises_only P (ret a).
Proof. intros tr e tr' H. discriminate. Qed.

Lemma raises_only_emit P ev : raises_only P (emit ev).
Proof. intros tr e tr' H. discriminate. Qed.

Lemma raises_only_bind {A B} P (c : M A) (k : A -> M B) :
  raises_only P c -> (forall a, raises_only P (k a)) -> raises_only P (bind c k).
Proof.
  intros Hc Hk tr e tr' H.
  apply bind_raise_inv in H as [H | (a & tr1 & _ & H)]; [eapply Hc | eapply Hk]; eauto.
Qed.

(** The same, knowing what [c] returns. *)
Lemma raises_only_bind_returns {A B} P Q (c : M A) (k : A -> M B) :
  raises_only P c -> returns_only Q c ->
  (forall a, Q a -> raises_only P (k a)) -> raises_only P (bind c k).
Proof.
  intros Hc Hq Hk tr e tr' H.
  apply bind_raise_inv in H as [H | (a & tr1 & Ha & H)]; [eapply Hc; eauto|].
  eapply Hk; eauto.
Qed.

Lemma raises_only_lift {A} (P : exn -> Prop) (r : except A) :
  (forall e, r = Raise e -> P e) -> raises_only P (lift r).
Proof. intros Hr tr e tr' H. inversion H. auto. Qed.

Lemma raises_only_weaken {A} (P P' : exn -> Prop) (c : M A) :
  (forall e, P e -> P' e) -> raises_only P c -> raises_only P' c.
Proof. intros Hpp Hc tr e tr' H. eauto. Qed.

Lemma returns_only_bind {A B} (Q : B -> Prop) (c : M A) (k : A -> M B) :
  (forall a, returns_only Q (k a)) -> returns_only Q (bind c k).
Proof.
  intros Hk tr b tr' H. apply bind_return_inv in H as (a & tr1 & _ & H). eapply Hk; eauto.
Qed.

Lemma returns_only_ret {A} (Q : A -> Prop) a : Q a -> returns_only Q (ret a).
Proof. intros Hq tr a' tr' H. inversion H; subst. exact Hq. Qed.

(** ** Reading one configuration file *)

Lemma load_yaml_never_raises w blob default allowed :
  raises_only (fun _ => False) (load_yaml w blob default allowed).
Proof.
  intros tr e tr'. unfold load_yaml, LOG_debug, LOG_exception, bind, emit, ret.
  destruct (yaml_load w blob) as [v|]; [|discriminate].
  destruct (negb (isinstance_any v allowed)); discriminate.
Qed.

Lemma load_yaml_returns_dict w blob :
  returns_only is_dict_value (load_yaml w blob (VDict []) [TDict]).
Proof.
  intros tr a tr'. unfold load_yaml, LOG_debug, LOG_exception, bind, emit, ret.
  destruct (yaml_load w blob) as [v|].
  - destruct v; simpl; intros H; inversion H; subst; unfold is_dict_value; eauto.
  - intros H; inversion H; subst; unfold is_dict_value; eauto.
Qed.

Lemma load_file_raises w fname :
  raises_only (fun e => exists n, e = IOError n) (load_file w fname).
Proof.
  intros tr e tr'. unfold load_file, open_read, LOG_debug, bind, emit, lift, ret.
  destruct (fs w !! fname) as [[]|]; intros H; inversion H; eauto.
Qed.

Lemma read_conf_raises w fname : raises_only io_failure (read_conf w fname).
Proof.
  intros tr e tr'. unfold read_conf, try_except.
  destruct (bind (load_file w fname) _ tr) as [[v|e0] tr1] eqn:Hb; [discriminate|].
  assert (He0 : exists n, e0 = IOError n).
  { apply bind_raise_inv in Hb as [Hb | (a & t & _ & Hb)].
    - eapply load_file_raises; eauto.
    - exfalso. eapply load_yaml_never_raises; eauto. }
  destruct He0 as [n ->]. unfold ret, raise.
  destruct (Z.eqb_spec n ENOENT); intros H; inversion H; subst.
  exists n; auto.
Qed.

Lemma read_conf_returns_dict w fname : returns_only is_dict_value (read_conf w fname).
Proof.
  intros tr a tr'. unfold read_conf, try_except.
  destruct (bind (load_file w fname) _ tr) as [[v|e0] tr1] eqn:Hb.
  - intros H; inversion H; subst.
    apply bind_return_inv in Hb as (c & t & _ & Hb).
    eapply load_yaml_returns_dict; eauto.
  - destruct e0; unfold raise, ret; try discriminate.
    destruct (errno =? ENOENT); intros H; inversion H. exists []; auto.
Qed.

(** An absent file is an empty document. *)
Lemma read_conf_absent w fname tr :
  fs w !! fname = None ->
  read_conf w fname tr = (Return (VDict []), (tr ++ [Log DEBUG "Reading from %s"])%list).
Proof.
  intros H. unfold read_conf, try_except, load_file, open_read, LOG_debug, bind, emit, lift.
  now rewrite H.
Qed.

(** A file that does not parse, or whose root is not a dictionary, is an
    empty document, and the failure is logged. *)
Lemma read_conf_unparsable w fname content tr :
  fs w !! fname = Some (File content) ->
  loads_as_dict w content = false ->
  read_conf w fname tr = (Return (VDict []), (tr ++ unparsable_log)%list).
Proof.
  intros Hf Hy.
  unfold read_conf, try_except, load_file, open_read, load_yaml,
    LOG_debug, LOG_exception, bind, emit, lift, ret, loads_as_dict in *.
  rewrite Hf. cbn. destruct (yaml_load w content) as [v|].
  - destruct v; try discriminate; cbn; now rewrite <- !app_assoc.
  - cbn. now rewrite <- !app_assoc.
Qed.

(** ** What configuration resolution can raise *)

Lemma mergedict_raises a b e : mergedict a b = Raise e -> merge_failure e.
Proof. apply mergedict_raise_shape. Qed.

Lemma mergedict_returns_dict a b r : mergedict a b = Return r -> is_dict_value r.
Proof.
  destruct (is_dict a) eqn:Ha.
  - destruct (is_dict b) eqn:Hb.
    + destruct (is_dict_true _ Ha) as [s ->], (is_dict_true _ Hb) as [c ->].
      rewrite mergedict_dicts. destruct (merge_items _ _ _); intros H; inversion H.
      now eexists.
    + now rewrite mergedict_non_dict_candidate.
  - now rewrite mergedict_non_dict_source.
Qed.

Lemma read_conf_d_loop_raises w confd confs : forall cfg,
  raises_only (fun e => merge_failure e \/ io_failure e)
              (read_conf_d_loop w confd confs cfg).
Proof.
  induction confs as [|conf rest IH]; intros cfg; cbn [read_conf_d_loop].
  - apply raises_only_ret.
  - apply raises_only_bind.
    + eapply raises_only_weaken; [|apply read_conf_raises]. auto.
    + intros frag. apply raises_only_bind; [|auto].
      apply raises_only_lift. intros e He. left. eapply mergedict_raises; eauto.
Qed.

Lemma read_conf_d_loop_returns_dict w confd confs : forall cfg,
  is_dict_value cfg ->
  returns_only is_dict_value (read_conf_d_loop w confd confs cfg).
Proof.
  induction confs as [|conf rest IH]; intros cfg Hcfg; cbn [read_conf_d_loop].
  - now apply returns_only_ret.
  - intros tr a tr' H.
    apply bind_return_inv in H as (frag & t1 & _ & H).
    apply bind_return_inv in H as (cfg' & t2 & Hm & H).
    inversion Hm; subst. eapply IH; [|eauto].
    eapply mergedict_returns_dict; eauto.
Qed.

Lemma read_conf_d_raises w confd :
  raises_only (fun e => merge_failure e \/ io_failure e \/ listing_failure e)
              (read_conf_d w confd).
Proof.
  unfold read_conf_d. apply raises_only_bind.
  - apply raises_only_lift. unfold listdir.
    destruct (fs w !! confd) as [[]|]; intros e He; inversion He;
      right; right; eexists; eauto.
  - intros names. eapply raises_only_weaken; [|apply read_conf_d_loop_raises].
    intros e [H|H]; auto.
Qed.

Lemma read_conf_d_returns_dict w confd : returns_only is_dict_value (read_conf_d w confd).
Proof.
  unfold read_conf_d. apply returns_only_bind. intros names.
  apply read_conf_d_loop_returns_dict. now exists [].
Qed.

Lemma conf_d_of_raises w cfgfile items e :
  conf_d_of w cfgfile items = Raise e -> conf_d_failure cfgfile e.
Proof.
  unfold conf_d_of. destruct (dict_get items "conf_d") as [c|].
  - destruct (truthy c); [|discriminate].
    destruct (isinstance c TStr) eqn:Hs; cbn [negb].
    + destruct c; discriminate.
    + intros H; inversion H. exists c. auto.
  - destruct (isdir w _); discriminate.
Qed.

Lemma conf_d_of_truthy w cfgfile items c :
  conf_d_of w cfgfile items = Return c -> truthy c = true -> exists d, c = VStr d.
Proof.
  unfold conf_d_of. destruct (dict_get items "conf_d") as [c0|].
  - destruct (truthy c0) eqn:Ht.
    + destruct (isinstance c0 TStr) eqn:Hs; cbn [negb]; [|discriminate].
      destruct c0; try discriminate. intros H; inversion H; eauto.
    + intros H; inversion H; subst. congruence.
  - destruct (isdir w _); intros H; inversion H; subst; eauto. discriminate.
Qed.

Lemma read_conf_with_confd_raises w cfgfile :
  raises_only (resolution_failure cfgfile) (read_conf_with_confd w cfgfile).
Proof.
  unfold read_conf_with_confd, resolution_failure.
  eapply raises_only_bind_returns;
    [ eapply raises_only_weaken; [|apply read_conf_raises]; auto
    | apply read_conf_returns_dict | ].
  intros cfg [items ->].
  eapply raises_only_bind_returns with (Q := fun c => truthy c = true -> exists d, c = VStr d).
  - apply raises_only_lift. intros e He. right; left. eapply conf_d_of_raises; eauto.
  - intros tr c tr' H. inversion H. eapply conf_d_of_truthy; eauto.
  - intros c Hc. destruct (truthy c) eqn:Ht; cbn [negb]; [|apply raises_only_ret].
    destruct (Hc eq_refl) as [d ->].
    destruct (isdir w d); cbn [negb]; [|apply raises_only_ret].
    apply raises_only_bind.
    + eapply raises_only_weaken; [|apply read_conf_d_raises].
      intros e [H|[H|H]]; auto.
    + intros frags. apply raises_only_lift. intros e He. left.
      eapply mergedict_raises; eauto.
Qed.

Lemma read_conf_with_confd_returns_dict w cfgfile :
  returns_only is_dict_value (read_conf_with_confd w cfgfile).
Proof.
  unfold read_conf_with_confd. intros tr a tr' H.
  apply bind_return_inv in H as (cfg & t1 & Hc & H).
  destruct (read_conf_returns_dict _ _ _ _ _ Hc) as [items ->].
  apply bind_return_inv in H as (c & t2 & _ & H).
  destruct (negb (truthy c)); [inversion H; now eexists|].
  destruct c; try (unfold raise in H; discriminate).
  destruct (negb (isdir w s)); [inversion H; now eexists|].
  apply bind_return_inv in H as (frags & t3 & _ & H).
  apply lift_inv in H as [H _]. eapply mergedict_returns_dict; eauto.
Qed.

Lemma get_cmdline_never_raises w : raises_only (fun _ => False) (get_cmdline w).
Proof.
  intros tr e tr'. unfold get_cmdline.
  destruct (environ w !! "DEBUG_PROC_CMDLINE"); [discriminate|].
  unfold try_except. destruct (bind _ _ tr) as [[a|e0] t]; discriminate.
Qed.

Lemma merge_base_cfg_raises w cfgfile cfg_builtin :
  raises_only (resolution_failure cfgfile) (merge_base_cfg w cfgfile cfg_builtin).
Proof.
  unfold merge_base_cfg. apply raises_only_bind; [apply read_conf_with_confd_raises|].
  intros syscfg. apply raises_only_bind.
  { unfold read_cc_from_cmdline. apply raises_only_bind; [|intros; apply raises_only_ret].
    eapply raises_only_weaken; [|apply get_cmdline_never_raises]. intros ? []. }
  intros kern_contents. apply raises_only_bind.
  { destruct (truthy _); [|apply raises_only_ret].
    eapply raises_only_weaken; [|apply load_yaml_never_raises]. intros ? []. }
  intros kerncfg. apply raises_only_bind.
  { apply raises_only_lift. intros e He. left. eapply mergedict_raises; eauto. }
  intros combined. destruct (truthy cfg_builtin); [|apply raises_only_ret].
  apply raises_only_lift. intros e He. left. eapply mergedict_raises; eauto.
Qed.

(** ** The layers of a resolved configuration *)








(** The documents behind a system configuration: the file's own and, when
    a fragment directory is used, that of the fragments, which is the
    target of the merge. *)
Lemma read_conf_with_confd_inv w cfgfile tr syscfg tr' :
  read_conf_with_confd w cfgfile tr = (Return syscfg, tr') ->
  exists sys t1,
    read_conf w cfgfile tr = (Return (VDict sys), t1) /\
    (syscfg = VDict sys \/
     exists d frags t2,
       read_conf_d w d t1 = (Return (VDict frags), t2) /\
       mergedict (VDict frags) (VDict sys) = Return syscfg).
Proof.
  unfold read_conf_with_confd. intros H.
  apply bind_return_inv in H as (cfg & t1 & Hc & H).
  destruct (read_conf_returns_dict _ _ _ _ _ Hc) as [sys ->].
  exists sys, t1. split; [exact Hc|].
  apply bind_return_inv in H as (c & t2 & Hcd & H).
  apply lift_inv in Hcd as [_ ->].
  destruct (negb (truthy c)); [inversion H; now left|].
  destruct c; try (unfold raise in H; discriminate).
  destruct (negb (isdir w s)); [inversion H; now left|].
  apply bind_return_inv in H as (frags & t3 & Hf & H).
  apply lift_inv in H as [H ->].
  destruct (read_conf_d_returns_dict _ _ _ _ _ Hf) as [fr ->].
  right. eauto 6.
Qed.

Lemma merge_base_cfg_inv w cfgfile cfg_builtin tr fin tr' :
  merge_base_cfg w cfgfile cfg_builtin tr = (Return fin, tr') ->
  exists syscfg kern combined t1,
    read_conf_with_confd w cfgfile tr = (Return syscfg, t1) /\
    (kern = [] \/
     exists blob t2 t3,
       load_yaml w blob (VDict []) [TDict] t2 = (Return (VDict kern), t3)) /\
    mergedict (VDict kern) syscfg = Return combined /\
    (if truthy cfg_builtin then mergedict combined cfg_builtin = Return fin
     else fin = combined).
Proof.
  unfold merge_base_cfg. intros H.
  apply bind_return_inv in H as (syscfg & t1 & Hs & H).
  apply bind_return_inv in H as (kern_contents & t2 & _ & H).
  apply bind_return_inv in H as (kerncfg & t3 & Hk & H).
  apply bind_return_inv in H as (combined & t4 & Hm & H).
  apply lift_inv in Hm as [Hm ->].
  assert (Hkern : exists kern, kerncfg = VDict kern /\
            (kern = [] \/ exists blob t2 t3,
               load_yaml w blob (VDict []) [TDict] t2 = (Return (VDict kern), t3))).
  { destruct (truthy (VStr kern_contents)).
    - destruct (load_yaml_returns_dict _ _ _ _ _ Hk) as [kern ->].
      exists kern. split; [reflexivity|]. right. eauto.
    - inversion Hk. exists []. auto. }
  destruct Hkern as (kern & -> & Hprov).
  exists syscfg, kern, combined, t1. repeat split; auto.
  destruct (truthy cfg_builtin).
  - now apply lift_inv in H as [H _].
  - now inversion H.
Qed.





(** ** merge_base_cfg *)




(** ** read_conf_d *)

Lemma ltb_asym a b : String.ltb a b = true -> String.ltb b a = false.
Proof.
  unfold String.ltb. rewrite (String.compare_antisym b a).
  now destruct (String.compare a b).
Qed.

Lemma insert_desc_perm x l : Permutation (insert_desc x l) (x :: l).
Proof.
  induction l as [|y l IH]; simpl; [reflexivity|].
  destruct (String.ltb y x); [reflexivity|].
  rewrite IH. apply perm_swap.
Qed.

Lemma sorted_reverse_perm l : Permutation (sorted_reverse l) l.
Proof.
  induction l as [|x l IH]; simpl; [reflexivity|].
  rewrite insert_desc_perm. now constructor.
Qed.

Lemma insert_desc_sorted x l :
  Sorted descending l -> Sorted descending (insert_desc x l).
Proof.
  induction 1 as [|y l Hs IH Hhd]; simpl; [repeat constructor|].
  destruct (String.ltb y x) eqn:Hyx.
  - constructor; [now constructor|]. constructor. now apply ltb_asym.
  - constructor; [exact IH|].
    destruct Hhd as [|z l Hyz]; simpl; [now constructor|].
    destruct (String.ltb z x); now constructor.
Qed.

Lemma sorted_reverse_sorted l : Sorted descending (sorted_reverse l).
Proof.
  induction l as [|x l IH]; simpl; [constructor|]. now apply insert_desc_sorted.
Qed.

(** The fragments [read_conf_d] folds: the entries of the directory in
    descending order of name, those that end in [.cfg] and are regular
    files, merged one after the other into an empty dictionary. *)
Lemma read_conf_d_fold w confd names tr :
  listdir w confd = Return names ->
  read_conf_d w confd tr
  = read_conf_d_loop w confd
      (filter (fun f => isfile w (path_join confd f))
         (filter (fun f => endswith f ".cfg") (sorted_reverse names)))
      (VDict []) tr.
Proof. intros H. unfold read_conf_d, bind, lift. now rewrite H. Qed.

Example read_conf_d_three_fragments :
  fst (read_conf_d three_fragments_world cloud_cfg_d [])
  = Return (VDict [("b", VInt 2); ("a", VInt 1); ("c", VInt 3)]).
Proof. vm_compute. reflexivity. Qed.

Example sorted_reverse_fragments :
  sorted_reverse ["10-a.cfg"; "20-b.cfg"; "05-c.cfg"] = ["20-b.cfg"; "10-a.cfg"; "05-c.cfg"].
Proof. reflexivity. Qed.

(** C4 (code defect).  The fragments of a directory are selected and
    ordered as specified ([read_conf_d_fold]), but two fragments that set
    the same key to plain values make the directory load raise: with
    [10-a.cfg] holding {k: 1} and [20-b.cfg] holding {k: 2} the fold merges
    {k: 2} with {k: 1} and [mergedict] raises on the pair 2, 1 instead of
    keeping 2. *)
Theorem read_conf_d_same_key_raises :
  fst (read_conf_d same_key_world cloud_cfg_d [])
  = Raise (TypeError "Attempting to merge a non dictionary source type: int").
Proof. vm_compute. reflexivity. Qed.

(** ** Failures of configuration resolution *)

(** C5 (counterexample).  Resolution raises for layers that cannot be
    read: an unreadable system file, an unreadable fragment (which aborts
    the directory load), and a [conf_d] entry that is not a string; none of
    these is a merge. *)
Lemma resolution_raises_beyond_merges :
  fst (merge_base_cfg unreadable_cfg_world cloud_cfg VNone []) = Raise (IOError EACCES) /\
  fst (read_conf_d unreadable_fragment_world cloud_cfg_d []) = Raise (IOError EACCES) /\
  fst (merge_base_cfg bad_conf_d_world cloud_cfg VNone [])
  = Raise (TypeError
      "Config file /etc/cloud/cloud.cfg contains 'conf_d' with non-string type int").
Proof. repeat split; vm_compute; reflexivity. Qed.

(** C5 (as amended).  A file that is absent is an empty document; so is a
    file whose content does not load as a dictionary, and that failure is
    logged; a fragment of either kind leaves the accumulated document as it
    is and the directory load goes on.  What resolution raises is a
    [TypeError] of [mergedict], the [TypeError] for a [conf_d] entry that is
    not a string, an [IOError] other than [ENOENT] from reading a file, or
    the [OSError] of listing the fragment directory. *)
Theorem resolution_failures
  (w : world) (cfgfile : string) (cfg_builtin : value) (tr : list event) :
  (forall fname t,
     fs w !! fname = None ->
     read_conf w fname t
     = (Return (VDict []), (t ++ [Log DEBUG "Reading from %s"])%list)) /\
  (forall fname content t,
     fs w !! fname = Some (File content) ->
     loads_as_dict w content = false ->
     read_conf w fname t = (Return (VDict []), (t ++ unparsable_log)%list)) /\
  (forall confd conf rest cfg t,
     fs w !! path_join confd conf = None \/
     (exists content,
        fs w !! path_join confd conf = Some (File content) /\
        loads_as_dict w content = false) ->
     exists t',
       read_conf_d_loop w confd (conf :: rest) (VDict cfg) t
       = read_conf_d_loop w confd rest (VDict cfg) t') /\
  (forall e tr',
     merge_base_cfg w cfgfile cfg_builtin tr = (Raise e, tr') ->
     merge_failure e \/ conf_d_failure cfgfile e \/ io_failure e \/ listing_failure e).
Proof.
  split; [|split; [|split]].
  - intros fname t. apply read_conf_absent.
  - intros fname content t. apply read_conf_unparsable.
  - intros confd conf rest cfg t Hbad. cbn [read_conf_d_loop].
    destruct Hbad as [Habs | (content & Hf & Hy)].
    + eexists. erewrite bind_return by (apply read_conf_absent; exact Habs).
      reflexivity.
    + eexists. erewrite bind_return by (eapply read_conf_unparsable; eauto).
      reflexivity.
  - intros e tr'. apply merge_base_cfg_raises.
Qed.

(** C5 (witness): a fragment whose content does not parse. *)
Lemma resolution_failures_witness :
  fs bad_fragment_world !! "/etc/cloud/cloud.cfg.d/20-bad.cfg" = Some (File "{{") /\
  loads_as_dict bad_fragment_world "{{" = false /\
  read_conf bad_fragment_world "/etc/cloud/cloud.cfg.d/20-bad.cfg" []
  = (Return (VDict []), unparsable_log).
Proof.
  split; [reflexivity|]. split; [reflexivity|].
  apply (proj1 (proj2 (resolution_failures bad_fragment_world cloud_cfg VNone []))
           _ "{{"); reflexivity.
Defined.

(** ** Seeds *)

Lemma fetches_app a b : fetches (a ++ b) = (fetches a ++ fetches b)%list.
Proof. apply filter_app. Qed.

Lemma load_yaml_dict_or_empty w blob tr :
  exists logs,
    load_yaml w blob (VDict []) [TDict] tr
    = (Return (yaml_dict_or_empty w blob), (tr ++ logs)%list) /\
    fetches logs = [].
Proof.
  unfold load_yaml, yaml_dict_or_empty, LOG_debug, LOG_exception, bind, emit, ret.
  destruct (yaml_load w blob) as [v|].
  - destruct v; cbn; rewrite <- ?app_assoc; eexists; split; reflexivity.
  - cbn. rewrite <- app_assoc. eexists; split; reflexivity.
Qed.

Lemma read_file_or_url_spec w url timeout retries file_retries tr :
  read_file_or_url w url timeout retries file_retries tr
  = (readurl w (normalize url) timeout (retry_budget retries file_retries url),
     (tr ++ [Fetch (normalize url) timeout (retry_budget retries file_retries url)])%list).
Proof. reflexivity. Qed.

Lemma seed_urls_lift nbase ext tr :
  (if find nbase "%s" 0 >=? 0
   then
     do ud_url <- lift (format nbase ("user-data" ++ ext));
     do md_url <- lift (format nbase ("meta-data" ++ ext));
     ret (ud_url, md_url)
   else ret (nbase ++ "user-data" ++ ext, nbase ++ "meta-data" ++ ext)) tr
  = lift (seed_urls nbase ext) tr.
Proof.
  unfold seed_urls, bind, lift, ret. destruct (find nbase "%s" 0 >=? 0); [|reflexivity].
  destruct (format nbase ("user-data" ++ ext)); [|reflexivity].
  now destruct (format nbase ("meta-data" ++ ext)).
Qed.

(** Formatting keeps the text before the first directive. *)
Lemma format_keeps_file_prefix rest arg out :
  format ("file://" ++ rest) arg = Return out -> startswith out "file://" = true.
Proof.
  unfold format. cbn. destruct (format_from arg Lit false rest); [|discriminate].
  intros H; inversion H; subst. apply (prefix_app "file://").
Qed.

Lemma file_prefix_file_backed url : startswith url "file://" = true -> file_backed url = true.
Proof.
  intros H. unfold startswith in H. apply prefix_drop in H. rewrite H.
  apply (prefix_app "file://").
Qed.

Lemma seed_urls_file_backed base ext ud_url md_url :
  seed_urls (normalize base) ext = Return (ud_url, md_url) ->
  file_backed base = true ->
  file_backed md_url = true /\ file_backed ud_url = true.
Proof.
  unfold file_backed at 1. intros Hu Hb.
  unfold startswith in Hb. apply prefix_drop in Hb.
  set (rest := drop (String.length "file://") (normalize base)) in Hb.
  rewrite Hb in Hu. unfold seed_urls in Hu.
  destruct (find _ "%s" 0 >=? 0).
  - destruct (format ("file://" ++ rest) ("user-data" ++ ext)) as [u|] eqn:Hfu; [|discriminate].
    destruct (format ("file://" ++ rest) ("meta-data" ++ ext)) as [m|] eqn:Hfm; [|discriminate].
    inversion Hu; subst.
    split; apply file_prefix_file_backed; eapply format_keeps_file_prefix; eauto.
  - inversion Hu; subst. split; apply (prefix_app "file://").
Qed.

Lemma concat_not_file_backed nbase name ext :
  startswith nbase "/" = false ->
  startswith nbase "file://" = false ->
  name = "user-data" \/ name = "meta-data" ->
  file_backed (nbase ++ name ++ ext) = false.
Proof.
  intros Hslash Hfile Hname. unfold file_backed, normalize, startswith in *.
  assert (Hs : String.prefix "/" (nbase ++ name ++ ext) = false).
  { destruct nbase as [|c nbase]; [destruct Hname as [-> | ->]; vm_compute; reflexivity|].
    change (String c nbase ++ name ++ ext) with (String c (nbase ++ name ++ ext)).
    rewrite prefix_cons in *. apply andb_false_iff in Hslash as [Hc | Hp].
    - now rewrite Hc.
    - now destruct nbase. }
  rewrite Hs.
  destruct (String.prefix "file://" (nbase ++ name ++ ext)) eqn:Hp; [|reflexivity].
  apply prefix_app_cases in Hp as [Hp | (t2 & Ht & Hne & Hp)]; [congruence|].
  exfalso. split_prefix Ht; destruct Hname as [-> | ->]; vm_compute in Hp; congruence.
Qed.

Lemma normalize_no_slash base : startswith (normalize base) "/" = false.
Proof.
  unfold normalize. destruct (startswith base "/") eqn:H; [reflexivity|exact H].
Qed.

Lemma seed_urls_not_file_backed base ext ud_url md_url :
  seed_urls (normalize base) ext = Return (ud_url, md_url) ->
  file_backed base = false ->
  find (normalize base) "%s" 0 < 0 ->
  file_backed md_url = false /\ file_backed ud_url = false.
Proof.
  unfold file_backed at 1, seed_urls. intros Hu Hb Hf.
  destruct (Z.geb_spec (find (normalize base) "%s" 0) 0); [lia|].
  injection Hu as <- <-.
  split;
    [ apply (concat_not_file_backed (normalize base) "meta-data" ext)
    | apply (concat_not_file_backed (normalize base) "user-data" ext) ];
    auto using normalize_no_slash.
Qed.

Lemma retry_budget_base base ext ud_url md_url retries file_retries url :
  seed_urls (normalize base) ext = Return (ud_url, md_url) ->
  url = md_url \/ url = ud_url ->
  retry_budget (if startswith (normalize base) "file://" then file_retries else retries)
               file_retries url
  = retry_budget retries file_retries url.
Proof.
  intros Hu Hurl. unfold retry_budget.
  destruct (file_backed url) eqn:Hfb; [reflexivity|].
  destruct (startswith (normalize base) "file://") eqn:Hb; [|reflexivity].
  destruct (seed_urls_file_backed _ _ _ _ Hu Hb) as [Hm Hud].
  destruct Hurl as [-> | ->]; congruence.
Qed.

Lemma read_seeded_inv w base ext timeout retries file_retries tr md ud tr' :
  read_seeded w base ext timeout retries file_retries tr = (Return (md, ud), tr') ->
  exists ud_url md_url md_str msc ud_str usc,
    seed_urls (normalize base) ext = Return (ud_url, md_url) /\
    fetches tr'
    = (fetches tr
       ++ [Fetch (normalize md_url) timeout (retry_budget retries file_retries md_url);
           Fetch (normalize ud_url) timeout (retry_budget retries file_retries ud_url)])%list /\
    readurl w (normalize md_url) timeout (retry_budget retries file_retries md_url)
    = Return (md_str, msc) /\
    readurl w (normalize ud_url) timeout (retry_budget retries file_retries ud_url)
    = Return (ud_str, usc) /\
    md = (if fetched_ok w md_str msc then yaml_dict_or_empty w md_str else VNone) /\
    ud = (if fetched_ok w ud_str usc then VStr ud_str else VNone).
Proof.
  unfold read_seeded. fold (normalize base). intros H.
  apply bind_return_inv in H as ([ud_url md_url] & t1 & Hu & H).
  rewrite seed_urls_lift in Hu. apply lift_inv in Hu as [Hu ->].
  apply bind_return_inv in H as ([md_str msc] & t2 & Hm & H).
  rewrite read_file_or_url_spec, (retry_budget_base _ _ _ _ _ _ _ Hu) in Hm by auto.
  injection Hm as Hm <-.
  apply bind_return_inv in H as (md0 & t3 & Hmd & H).
  apply bind_return_inv in H as ([ud_str usc] & t4 & Hud & H).
  rewrite read_file_or_url_spec, (retry_budget_base _ _ _ _ _ _ _ Hu) in Hud by auto.
  injection Hud as Hud <-.
  injection H as <- <- <-.
  exists ud_url, md_url, md_str, msc, ud_str, usc.
  fold (fetched_ok w md_str msc) in Hmd. fold (fetched_ok w ud_str usc).
  assert (Hmd' : md0 = (if fetched_ok w md_str msc then yaml_dict_or_empty w md_str else VNone)
                 /\ fetches t3 = (fetches tr ++ [Fetch (normalize md_url) timeout
                                    (retry_budget retries file_retries md_url)])%list).
  { destruct (fetched_ok w md_str msc).
    - destruct (load_yaml_dict_or_empty w md_str
                  (tr ++ [Fetch (normalize md_url) timeout
                            (retry_budget retries file_retries md_url)])%list)
        as (logs & Hl & Hlogs).
      rewrite Hl in Hmd. injection Hmd as <- <-.
      split; [reflexivity|]. now rewrite !fetches_app, Hlogs, app_nil_r.
    - injection Hmd as <- <-. split; [reflexivity|]. now rewrite fetches_app. }
  destruct Hmd' as [-> Ht3].
  repeat split; auto.
  rewrite fetches_app, Ht3, <- app_assoc. reflexivity.
Qed.

(** C7 (counterexample).  The base [%.0s/seed/x%%s] is not file-backed:
    it starts with neither a slash nor [file://].  Formatting it drops the
    name (precision 0) and yields the locator [/seed/x%s], which is; both
    fetches are made with the file budget 0, not the network budget 10.
    And a base with a placeholder and a percent-escape, such as
    [http://host/a%20b/%s], cannot be formatted: [read_seeded] raises
    before any fetch. *)
Lemma read_seeded_budget_follows_locator :
  file_backed "%.0s/seed/x%%s" = false /\
  format "%.0s/seed/x%%s" "meta-data" = Return "/seed/x%s" /\
  fetches (snd (read_seeded seed_odd_world "%.0s/seed/x%%s" "" 5 10 0 []))
  = [Fetch "file:///seed/x%s" 5 0; Fetch "file:///seed/x%s" 5 0] /\
  read_seeded seed_odd_world "http://host/a%20b/%s" "" 5 10 0 []
  = (Raise (ValueError "unsupported format character"), []).
Proof. repeat split; vm_compute; reflexivity. Qed.

(** C7 (as amended).  When [read_seeded] returns, it has built the two
    locators from the normalized base, fetched the metadata one and then
    the user-data one, each with the file retry budget when the locator
    fetched is file-backed (it starts with a slash or [file://]) and the
    network budget otherwise; a locator is file-backed whenever the
    normalized base is, and, for a base without a placeholder, only then.
    Each result is present only if its fetch returned content with an
    acceptable status; present metadata is the document [yaml.load] makes
    of the content, or the empty dictionary when that is no dictionary;
    user-data is the content itself. *)
Theorem read_seeded_spec
  (w : world) (base ext : string) (timeout retries file_retries : Z) (tr : list event) :
  (forall md ud tr',
     read_seeded w base ext timeout retries file_retries tr = (Return (md, ud), tr') ->
     exists ud_url md_url md_str msc ud_str usc,
       seed_urls (normalize base) ext = Return (ud_url, md_url) /\
       fetches tr'
       = (fetches tr
          ++ [Fetch (normalize md_url) timeout (retry_budget retries file_retries md_url);
              Fetch (normalize ud_url) timeout (retry_budget retries file_retries ud_url)])%list /\
       readurl w (normalize md_url) timeout (retry_budget retries file_retries md_url)
       = Return (md_str, msc) /\
       readurl w (normalize ud_url) timeout (retry_budget retries file_retries ud_url)
       = Return (ud_str, usc) /\
       md = (if fetched_ok w md_str msc then yaml_dict_or_empty w md_str else VNone) /\
       ud = (if fetched_ok w ud_str usc then VStr ud_str else VNone)) /\
  (forall ud_url md_url,
     seed_urls (normalize base) ext = Return (ud_url, md_url) ->
     file_backed base = true ->
     retry_budget retries file_retries md_url = file_retries /\
     retry_budget retries file_retries ud_url = file_retries) /\
  (forall ud_url md_url,
     seed_urls (normalize base) ext = Return (ud_url, md_url) ->
     file_backed base = false ->
     find (normalize base) "%s" 0 < 0 ->
     retry_budget retries file_retries md_url = retries /\
     retry_budget retries file_retries ud_url = retries) /\
  retries_default = 10 /\ file_retries_default = 0.
Proof.
  split; [|split; [|split; [|split; reflexivity]]].
  - intros md ud tr'. apply read_seeded_inv.
  - intros ud_url md_url Hu Hb. unfold retry_budget.
    destruct (seed_urls_file_backed _ _ _ _ Hu Hb) as [-> ->]. auto.
  - intros ud_url md_url Hu Hb Hf. unfold retry_budget.
    destruct (seed_urls_not_file_backed _ _ _ _ Hu Hb Hf) as [-> ->]. auto.
Qed.

(** C7 (witness): a seed directory with both files. *)
Lemma read_seeded_spec_witness :
  let r := read_seeded seed_complete_world "/seed/" "" 5 10 0 [] in
  r = (Return (VDict [("instance-id", VStr "i-1")], VStr "#cloud-config"), snd r) /\
  fetches (snd r) = [Fetch "file:///seed/meta-data" 5 0; Fetch "file:///seed/user-data" 5 0].
Proof.
  split; [vm_compute; reflexivity|].
  destruct (proj1 (read_seeded_spec seed_complete_world "/seed/" "" 5 10 0 [])
              (VDict [("instance-id", VStr "i-1")]) (VStr "#cloud-config")
              (snd (read_seeded seed_complete_world "/seed/" "" 5 10 0 []))
              ltac:(vm_compute; reflexivity))
    as (ud_url & md_url & md_str & msc & ud_str & usc & Hu & Hf & _).
  vm_compute in Hu. injection Hu as <- <-. exact Hf.
Defined.

(** ** read_optional_seed *)

Lemma read_optional_seed_cases w fill base ext timeout tr :
  read_optional_seed w fill base ext timeout tr
  = match read_seeded w base ext timeout retries_default file_retries_default tr with
    | (Return (md, ud), tr') =>
        (Return (true, <["meta-data" := md]> (<["user-data" := ud]> fill)), tr')
    | (Raise (OSError errno), tr') =>
        if errno =? ENOENT then (Return (false, fill), tr')
        else (Raise (OSError errno), tr')
    | (Raise e, tr') => (Raise e, tr')
    end.
Proof.
  unfold read_optional_seed, try_except, bind.
  destruct (read_seeded _ _ _ _ _ _ tr) as [[[md ud]|e] tr']; [reflexivity|].
  destruct e; try reflexivity. unfold ret, raise. now destruct (errno =? ENOENT).
Qed.

(** C8 (counterexample).  With a valid meta-data file and an empty
    user-data file the wrapper returns true although user-data is absent;
    and with the user-data file missing, so that its fetch raises [ENOENT],
    it returns false and yields no metadata: [fill] stays empty. *)
Lemma read_optional_seed_true_without_user_data :
  fst (read_optional_seed seed_empty_ud_world ∅ "/seed/" "" 5 [])
  = Return (true, <["meta-data" := VDict [("instance-id", VStr "i-1")]]>
                    (<["user-data" := VNone]> ∅)) /\
  fst (read_optional_seed seed_missing_ud_world ∅ "/seed/" "" 5 [])
  = Return (false, ∅).
Proof. split; vm_compute; reflexivity. Qed.

(** C8 (as amended).  [read_optional_seed] returns true whenever
    [read_seeded] returns, whether or not metadata and user-data are
    present, and stores both in [fill]; it returns false, with [fill] as it
    was, when [read_seeded] raises an [OSError] with [ENOENT], which is not
    propagated; any other exception propagates.  For a file-backed base
    with a valid meta-data file: when user-data is missing and its fetch
    raises [ENOENT] the result is false and no metadata is yielded; when
    user-data is an empty file the result is true, with the metadata
    document present and user-data absent. *)
Theorem read_optional_seed_outcome
  (w : world) (fill : gmap string value) (base ext : string) (timeout : Z)
  (tr : list event) :
  (forall md ud tr',
     read_seeded w base ext timeout retries_default file_retries_default tr
     = (Return (md, ud), tr') ->
     read_optional_seed w fill base ext timeout tr
     = (Return (true, <["meta-data" := md]> (<["user-data" := ud]> fill)), tr')) /\
  (forall tr',
     read_seeded w base ext timeout retries_default file_retries_default tr
     = (Raise (OSError ENOENT), tr') ->
     read_optional_seed w fill base ext timeout tr = (Return (false, fill), tr')) /\
  (forall e tr',
     read_seeded w base ext timeout retries_default file_retries_default tr
     = (Raise e, tr') ->
     e <> OSError ENOENT ->
     read_optional_seed w fill base ext timeout tr = (Raise e, tr')) /\
  fst (read_optional_seed seed_missing_ud_world ∅ "/seed/" "" 5 []) = Return (false, ∅) /\
  fst (read_optional_seed seed_empty_ud_world ∅ "/seed/" "" 5 [])
  = Return (true, <["meta-data" := VDict [("instance-id", VStr "i-1")]]>
                    (<["user-data" := VNone]> ∅)).
Proof.
  split; [|split; [|split; [|split; vm_compute; reflexivity]]].
  - intros md ud tr' H. now rewrite read_optional_seed_cases, H.
  - intros tr' H. now rewrite read_optional_seed_cases, H.
  - intros e tr' H Hne. rewrite read_optional_seed_cases, H.
    destruct e; try reflexivity.
    destruct (Z.eqb_spec errno ENOENT); [congruence|reflexivity].
Qed.

(** C8 (witness): a seed directory with both files. *)
Lemma read_optional_seed_outcome_witness :
  let r := read_seeded seed_complete_world "/seed/" "" 5
             retries_default file_retries_default [] in
  r = (Return (VDict [("instance-id", VStr "i-1")], VStr "#cloud-config"), snd r) /\
  read_optional_seed seed_complete_world ∅ "/seed/" "" 5 []
  = (Return (true, <["meta-data" := VDict [("instance-id", VStr "i-1")]]>
                     (<["user-data" := VStr "#cloud-config"]> ∅)), snd r).
Proof.
  split; [vm_compute; reflexivity|].
  apply (proj1 (read_optional_seed_outcome seed_complete_world ∅ "/seed/" "" 5 [])).
  vm_compute. reflexivity.
Defined.

(** C9.  Whatever dictionary is passed as [fill]: when
    [read_optional_seed] returns false, [fill] is unchanged; when it
    returns true, [fill] has been assigned under ['user-data'] and
    ['meta-data'], each value being a result of [read_seeded] that may be
    [None], and every other key is as it was. *)
Theorem read_optional_seed_fill
  (w : world) (fill : gmap string value) (base ext : string) (timeout : Z)
  (tr : list event) (ok : bool) (fill' : gmap string value) (tr' : list event) :
  read_optional_seed w fill base ext timeout tr = (Return (ok, fill'), tr') ->
  (ok = false -> fill' = fill) /\
  (ok = true ->
   exists md ud,
     fill' = <["meta-data" := md]> (<["user-data" := ud]> fill) /\
     (md = VNone \/ is_dict_value md) /\
     (ud = VNone \/ exists s, ud = VStr s) /\
     fill' !! "meta-data" = Some md /\
     fill' !! "user-data" = Some ud /\
     forall k, k <> "user-data" -> k <> "meta-data" -> fill' !! k = fill !! k).
Proof.
  rewrite read_optional_seed_cases.
  destruct (read_seeded _ _ _ _ _ _ tr) as [[[md ud]|e] t] eqn:Hs.
  - intros H. injection H as <- <- <-. split; [discriminate|]. intros _.
    apply read_seeded_inv in Hs
      as (ud_url & md_url & md_str & msc & ud_str & usc & _ & _ & _ & _ & Hmd & Hud).
    exists md, ud. split; [reflexivity|]. split; [|split; [|split; [|split]]].
    + subst md. destruct (fetched_ok w md_str msc); [right|now left].
      unfold yaml_dict_or_empty, is_dict_value.
      destruct (yaml_load w md_str) as [[]|]; eauto.
    + subst ud. destruct (fetched_ok w ud_str usc); eauto.
    + apply lookup_insert_eq.
    + rewrite lookup_insert_ne by discriminate. apply lookup_insert_eq.
    + intros k Hu Hm. now rewrite !lookup_insert_ne by congruence.
  - destruct e; try discriminate.
    destruct (errno =? ENOENT); [|discriminate].
    intros H. injection H as <- <- <-. split; [reflexivity|discriminate].
Qed.

(** C9 (witness): a [fill] with an entry of its own, which is kept. *)
Lemma read_optional_seed_fill_witness :
  let r := read_optional_seed seed_empty_ud_world example_fill "/seed/" "" 5 [] in
  r = (Return (true, example_fill_after), snd r) /\
  example_fill_after !! "instance" = Some (VInt 7).
Proof.
  split; [vm_compute; reflexivity|].
  destruct (proj2 (read_optional_seed_fill seed_empty_ud_world
                     example_fill "/seed/" "" 5 [] true example_fill_after
                     (snd (read_optional_seed seed_empty_ud_world
                             example_fill "/seed/" "" 5 []))
                     ltac:(vm_compute; reflexivity)) eq_refl)
    as (md & ud & _ & _ & _ & _ & _ & Hk).
  rewrite Hk by discriminate. reflexivity.
Defined.

(** ** Settings of a merged configuration *)

Lemma at_path_lookup y p v : at_path y p v <-> lookup_path y p = Some v.
Proof.
  unfold at_path. revert y. induction p as [|k p IH]; intros y; simpl.
  - split; [intros H; specialize (H VNone); congruence | intros H d; congruence].
  - destruct y as [| b | n | s | l | d]; simpl.
    1-3: split; [intros H; specialize (H VNone); discriminate | discriminate].
    + split; [|discriminate]. intros H.
      pose proof (H VNone) as H1. pose proof (H (VBool true)) as H2.
      destruct (find s k 0 >=? 0); congruence.
    + split; [|discriminate]. intros H.
      pose proof (H VNone) as H1. pose proof (H (VBool true)) as H2.
      destruct (in_list k l); congruence.
    + destruct (dict_get d k) as [x|]; [apply IH|].
      split; [|discriminate]. intros H.
      pose proof (H VNone) as H1. pose proof (H (VBool true)) as H2. congruence.
Qed.


Lemma keeps_refl x : keeps x x.
Proof. intros p v H _. exact H. Qed.

Lemma keeps_trans x y z : keeps x y -> keeps y z -> keeps x z.
Proof. intros H1 H2 p v H Hv. apply H2; auto. Qed.

Lemma merge_items_keeps_target c : forall s r,
  Forall (fun kv => forall a m, mergedict a (snd kv) = Return m -> keeps a m) c ->
  merge_items mergedict c s = Return r ->
  forall k x, dict_get s k = Some x ->
  exists x', dict_get r k = Some x' /\ keeps x x'.
Proof.
  induction c as [|[k0 v0] c IH]; intros s r Hall Hm k x Hk; simpl in Hm.
  - inversion Hm; subst. exists x. split; [assumption|apply keeps_refl].
  - inversion Hall as [|? ? Hhd Htl]; subst. simpl in Hhd.
    destruct (dict_get s k0) as [cur|] eqn:Hs0.
    + destruct (mergedict cur v0) as [m|e] eqn:Hf; [|discriminate].
      destruct (String.eqb_spec k0 k) as [->|Hne].
      * assert (x = cur) by congruence. subst x.
        destruct (IH _ _ Htl Hm k m (dict_get_set_eq _ _ _)) as (x' & Hr & Hkeep).
        exists x'. split; [assumption|]. eapply keeps_trans; eauto.
      * apply (IH _ _ Htl Hm). now rewrite dict_get_set_ne.
    + destruct (String.eqb_spec k0 k) as [->|Hne]; [congruence|].
      apply (IH _ _ Htl Hm). now rewrite dict_get_set_ne.
Qed.

Lemma merge_items_keeps_candidate c : forall s r,
  Forall (fun kv => forall a m, mergedict a (snd kv) = Return m ->
                                keeps a m /\ keeps (snd kv) m) c ->
  merge_items mergedict c s = Return r ->
  forall k y, dict_get c k = Some y ->
  exists y', dict_get r k = Some y' /\ keeps y y'.
Proof.
  induction c as [|[k0 v0] c IH]; intros s r Hall Hm k y Hk; simpl in Hm, Hk;
    [discriminate|].
  inversion Hall as [|? ? Hhd Htl]; subst. simpl in Hhd.
  assert (Htl' : Forall (fun kv => forall a m, mergedict a (snd kv) = Return m -> keeps a m) c).
  { eapply List.Forall_impl; [|exact Htl]. intros kv H a m Ha. exact (proj1 (H a m Ha)). }
  destruct (String.eqb_spec k0 k) as [->|Hne].
  - assert (y = v0) by congruence. subst y.
    destruct (dict_get s k) as [cur|] eqn:Hs0.
    + destruct (mergedict cur v0) as [m|e] eqn:Hf; [|discriminate].
      destruct (merge_items_keeps_target _ _ _ Htl' Hm k m (dict_get_set_eq _ _ _))
        as (x' & Hr & Hkeep).
      exists x'. split; [assumption|].
      eapply keeps_trans; [exact (proj2 (Hhd _ _ Hf))|exact Hkeep].
    + exact (merge_items_keeps_target _ _ _ Htl' Hm k v0 (dict_get_set_eq _ _ _)).
  - destruct (dict_get s k0) as [cur|].
    + destruct (mergedict cur v0) as [m|e]; [|discriminate].
      exact (IH _ _ Htl Hm k y Hk).
    + exact (IH _ _ Htl Hm k y Hk).
Qed.

Lemma mergedict_keeps b : forall a r,
  mergedict a b = Return r -> keeps a r /\ keeps b r.
Proof.
  induction b as [| b | n | s | l IHl | items IH] using value_nested_ind; intros a r H.
  1-5: destruct (is_dict a) eqn:Hd;
    [ rewrite mergedict_non_dict_candidate in H by auto; discriminate
    | rewrite mergedict_non_dict_source in H by auto; discriminate ].
  destruct (is_dict a) eqn:Hd;
    [|rewrite mergedict_non_dict_source in H by auto; discriminate].
  destruct (is_dict_true _ Hd) as [s ->]. rewrite mergedict_dicts in H.
  destruct (merge_items mergedict items s) as [r'|e] eqn:Hm; [|discriminate].
  inversion H; subst r. clear H.
  assert (IH' : Forall (fun kv => forall a m, mergedict a (snd kv) = Return m -> keeps a m) items).
  { eapply List.Forall_impl; [|exact IH]. intros kv Hkv a m Ha. exact (proj1 (Hkv a m Ha)). }
  split; intros p v Hp Hv; destruct p as [|k p]; simpl in Hp |- *.
  - inversion Hp; subst. discriminate.
  - destruct (dict_get s k) as [x|] eqn:Hk; [|discriminate].
    destruct (merge_items_keeps_target _ _ _ IH' Hm k x Hk) as (x' & -> & Hkeep).
    now apply Hkeep.
  - inversion Hp; subst. discriminate.
  - destruct (dict_get items k) as [y|] eqn:Hk; [|discriminate].
    destruct (merge_items_keeps_candidate _ _ _ IH Hm k y Hk) as (y' & -> & Hkeep).
    now apply Hkeep.
Qed.



(** ** When mergedict fails *)



Lemma keeps_settings_lookup x y : keeps_settings x y <-> keeps x y.
Proof.
  unfold keeps_settings, setting. split.
  - intros H p v Hp Hv. apply at_path_lookup. apply (H p v). split; [|assumption].
    now apply at_path_lookup.
  - intros H p v [Hp Hv]. split; [|assumption]. apply at_path_lookup.
    apply H; [|assumption]. now apply at_path_lookup.
Qed.

(** ** The order of a directory listing *)

Lemma descending_leb a b : descending a b <-> String.leb b a = true.
Proof.
  unfold descending, String.ltb, String.leb. rewrite (String.compare_antisym b a).
  destruct (String.compare a b); simpl; split; congruence.
Qed.

Lemma descending_trans a b c : descending a b -> descending b c -> descending a c.
Proof.
  rewrite !descending_leb. intros H1 H2.
  pose proof (@PreOrder_Transitive _ _
                (@partial_order_pre _ _ String.le_po) c b a) as Ht.
  unfold String.le in Ht. apply Is_true_true. apply Ht; now apply Is_true_true.
Qed.

Lemma descending_antisym a b : descending a b -> descending b a -> a = b.
Proof. rewrite !descending_leb. intros H1 H2. now apply String.leb_antisym. Qed.

Lemma descending_refl a : descending a a.
Proof.
  apply descending_leb.
  destruct (String.leb_total a a); assumption.
Qed.

Lemma sorted_descending_unique l1 : forall l2,
  Sorted descending l1 -> Sorted descending l2 -> Permutation l1 l2 -> l1 = l2.
Proof.
  assert (Htr : Relations_1.Transitive descending)
    by (intros a b c; apply descending_trans).
  induction l1 as [|x l1 IH]; intros l2 H1 H2 Hp.
  - apply Permutation_nil in Hp. now subst.
  - destruct l2 as [|y l2]; [apply Permutation_sym, Permutation_nil in Hp; discriminate|].
    apply Sorted_StronglySorted in H1; [|exact Htr].
    apply Sorted_StronglySorted in H2; [|exact Htr].
    inversion H1 as [|? ? Hs1 Hall1]; subst.
    inversion H2 as [|? ? Hs2 Hall2]; subst.
    assert (Hxy : descending y x).
    { assert (Hin : In x (y :: l2)) by (eapply Permutation_in; [exact Hp|now left]).
      destruct Hin as [->|Hin]; [apply descending_refl|].
      rewrite List.Forall_forall in Hall2. now apply Hall2. }
    assert (Hyx : descending x y).
    { assert (Hin : In y (x :: l1))
        by (eapply Permutation_in; [apply Permutation_sym; exact Hp|now left]).
      destruct Hin as [->|Hin]; [apply descending_refl|].
      rewrite List.Forall_forall in Hall1. now apply Hall1. }
    assert (x = y) by now apply descending_antisym. subst y.
    f_equal. apply IH.
    + now apply StronglySorted_Sorted.
    + now apply StronglySorted_Sorted.
    + eapply Permutation_cons_inv; exact Hp.
Qed.

Lemma sorted_reverse_permutation l1 l2 :
  Permutation l1 l2 -> sorted_reverse l1 = sorted_reverse l2.
Proof.
  intros Hp. apply sorted_descending_unique; try apply sorted_reverse_sorted.
  etransitivity; [apply sorted_reverse_perm|].
  etransitivity; [exact Hp|]. symmetry. apply sorted_reverse_perm.
Qed.

Lemma with_listing_open_read w confd n1 n2 p :
  open_read (with_listing w confd n1) p = open_read (with_listing w confd n2) p.
Proof.
  unfold open_read, with_listing; simpl.
  destruct (decide (confd = p)) as [->|Hne].
  - now rewrite !lookup_insert_eq.
  - now rewrite !lookup_insert_ne by assumption.
Qed.

Lemma with_listing_isfile w confd n1 n2 p :
  isfile (with_listing w confd n1) p = isfile (with_listing w confd n2) p.
Proof.
  unfold isfile, with_listing; simpl.
  destruct (decide (confd = p)) as [->|Hne].
  - now rewrite !lookup_insert_eq.
  - now rewrite !lookup_insert_ne by assumption.
Qed.

Lemma with_listing_read_conf w confd n1 n2 p tr :
  read_conf (with_listing w confd n1) p tr = read_conf (with_listing w confd n2) p tr.
Proof.
  unfold read_conf, try_except, load_file, bind, lift.
  destruct (LOG_debug "Reading from %s" tr) as [[u|e] t1]; [|reflexivity].
  now rewrite (with_listing_open_read w confd n1 n2 p).
Qed.

Lemma with_listing_loop w confd n1 n2 d confs : forall cfg tr,
  read_conf_d_loop (with_listing w confd n1) d confs cfg tr
  = read_conf_d_loop (with_listing w confd n2) d confs cfg tr.
Proof.
  induction confs as [|c confs IH]; intros cfg tr; simpl; [reflexivity|].
  unfold bind. rewrite (with_listing_read_conf w confd n1 n2).
  destruct (read_conf _ _ tr) as [[frag|e] t1]; [|reflexivity].
  destruct (lift (mergedict cfg frag) t1) as [[m|e] t2]; [|reflexivity].
  apply IH.
Qed.

Lemma with_listing_listdir w confd names :
  listdir (with_listing w confd names) confd = Return names.
Proof. unfold listdir, with_listing; simpl. now rewrite lookup_insert_eq. Qed.
(** ** Settings through configuration resolution *)

Lemma read_conf_value w f tr : fst (read_conf w f tr) = fst (read_conf w f []).
Proof.
  unfold read_conf, try_except, load_file, load_yaml, open_read,
    LOG_debug, LOG_exception, bind, emit, lift, ret, raise.
  cbn. destruct (fs w !! f) as [[content|n|es|n|]|]; cbn; try reflexivity.
  - destruct (yaml_load w content) as [v|]; cbn; [|reflexivity].
    destruct (isinstance v TDict); reflexivity.
  - destruct (n =? ENOENT); reflexivity.
Qed.

Lemma read_conf_d_loop_keeps w confd confs : forall cfg tr r tr',
  read_conf_d_loop w confd confs cfg tr = (Return r, tr') ->
  keeps cfg r /\
  forall conf, In conf confs ->
  forall frag t t', read_conf w (path_join confd conf) t = (Return frag, t') ->
  keeps frag r.
Proof.
  induction confs as [|c confs IH]; intros cfg tr r tr' H; simpl in H.
  - inversion H; subst. split; [apply keeps_refl|]. intros conf [].
  - apply bind_return_inv in H as (frag0 & t1 & Hf & H).
    apply bind_return_inv in H as (cfg' & t2 & Hm & H).
    apply lift_inv in Hm as [Hm ->].
    destruct (mergedict_keeps _ _ _ Hm) as [Hk1 Hk2].
    destruct (IH _ _ _ _ H) as [Hk3 Hrest].
    split; [eapply keeps_trans; eauto|].
    intros conf [<-|Hin] frag t t' Hr.
    + assert (frag = frag0).
      { pose proof (read_conf_value w (path_join confd c) t) as E1.
        pose proof (read_conf_value w (path_join confd c) tr) as E2.
        rewrite Hr in E1. rewrite Hf in E2. simpl in E1, E2. congruence. }
      subst. eapply keeps_trans; eauto.
    + eapply Hrest; eauto.
Qed.

Lemma read_conf_d_keeps w confd tr r tr' names name frag t t' :
  read_conf_d w confd tr = (Return r, tr') ->
  listdir w confd = Return names ->
  In name names ->
  endswith name ".cfg" = true ->
  isfile w (path_join confd name) = true ->
  read_conf w (path_join confd name) t = (Return frag, t') ->
  keeps frag r.
Proof.
  intros H Hl Hin He Hf Hr.
  rewrite (read_conf_d_fold _ _ _ _ Hl) in H.
  apply read_conf_d_loop_keeps in H as [_ H].
  apply (H name) with (t := t) (t' := t'); [|exact Hr].
  apply list_elem_of_In. apply list_elem_of_filter. split; [now rewrite Hf|].
  apply list_elem_of_filter. split; [now rewrite He|].
  apply list_elem_of_In.
  eapply Permutation_in; [apply Permutation_sym, sorted_reverse_perm|exact Hin].
Qed.

Lemma read_conf_with_confd_keeps w cfgfile tr syscfg tr' sys t :
  read_conf_with_confd w cfgfile tr = (Return syscfg, tr') ->
  read_conf w cfgfile tr = (Return sys, t) ->
  keeps sys syscfg.
Proof.
  intros H Hr.
  apply read_conf_with_confd_inv in H as (sys' & t1 & Hr' & H).
  assert (sys = VDict sys') by congruence. subst sys.
  destruct H as [->|(d & frags & t2 & _ & Hm)]; [apply keeps_refl|].
  exact (proj2 (mergedict_keeps _ _ _ Hm)).
Qed.

Lemma merge_base_cfg_keeps w cfgfile cfg_builtin tr fin tr' :
  merge_base_cfg w cfgfile cfg_builtin tr = (Return fin, tr') ->
  (truthy cfg_builtin = true -> keeps cfg_builtin fin) /\
  (forall syscfg t, read_conf_with_confd w cfgfile tr = (Return syscfg, t) ->
                    keeps syscfg fin).
Proof.
  intros H.
  apply merge_base_cfg_inv in H as (syscfg & kern & combined & t1 & Hs & _ & Hm & Hb).
  destruct (mergedict_keeps _ _ _ Hm) as [_ Hk2].
  split.
  - intros Ht. rewrite Ht in Hb. exact (proj2 (mergedict_keeps _ _ _ Hb)).
  - intros syscfg' t Hs'. assert (syscfg' = syscfg) by congruence. subst.
    destruct (truthy cfg_builtin).
    + eapply keeps_trans; [exact Hk2|]. exact (proj1 (mergedict_keeps _ _ _ Hb)).
    + now subst.
Qed.
Lemma fst_return {A} (c : except A * list event) a :
  fst c = Return a -> exists tr', c = (Return a, tr').
Proof. destruct c as [r t]; simpl; intros ->; eauto. Qed.



(** X2. A merge that succeeds loses nothing: every setting of the
    target and every setting of the candidate, at any depth, is a setting
    of the result with the same value, as [get_cfg_by_path] reads it. *)
Theorem mergedict_keeps_settings (a b r : value) :
  mergedict a b = Return r ->
  keeps_settings a r /\ keeps_settings b r.
Proof.
  intros H. destruct (mergedict_keeps _ _ _ H).
  split; now apply keeps_settings_lookup.
Qed.

Lemma mergedict_keeps_settings_witness :
  mergedict (VDict [("a", VInt 1); ("n", VDict [("x", VInt 1)])])
            (VDict [("b", VInt 2); ("n", VDict [("y", VInt 2)])])
  = Return (VDict [("a", VInt 1); ("n", VDict [("x", VInt 1); ("y", VInt 2)]);
                   ("b", VInt 2)]) /\
  keeps_settings (VDict [("a", VInt 1); ("n", VDict [("x", VInt 1)])])
    (VDict [("a", VInt 1); ("n", VDict [("x", VInt 1); ("y", VInt 2)]); ("b", VInt 2)]) /\
  keeps_settings (VDict [("b", VInt 2); ("n", VDict [("y", VInt 2)])])
    (VDict [("a", VInt 1); ("n", VDict [("x", VInt 1); ("y", VInt 2)]); ("b", VInt 2)]).
Proof.
  split; [reflexivity|].
  apply (mergedict_keeps_settings
           (VDict [("a", VInt 1); ("n", VDict [("x", VInt 1)])])
           (VDict [("b", VInt 2); ("n", VDict [("y", VInt 2)])])).
  reflexivity.
Defined.



(** X4. The document [read_conf_d] returns, the exception it raises and
    the records it logs do not depend on the order in which [os.listdir]
    returns the entries of the directory. *)
Theorem read_conf_d_listing_order (w : world) (confd : string)
    (names names' : list string) (tr : list event) :
  Permutation names names' ->
  read_conf_d (with_listing w confd names) confd tr
  = read_conf_d (with_listing w confd names') confd tr.
Proof.
  intros Hp.
  rewrite (read_conf_d_fold _ _ names), (read_conf_d_fold _ _ names')
    by apply with_listing_listdir.
  rewrite (sorted_reverse_permutation names names' Hp).
  rewrite (with_listing_loop w confd names names'). f_equal.
  apply list_filter_iff. intros f.
  now rewrite (with_listing_isfile w confd names names').
Qed.

Lemma read_conf_d_listing_order_witness :
  Permutation ["10-a.cfg"; "20-b.cfg"; "05-c.cfg"] ["05-c.cfg"; "10-a.cfg"; "20-b.cfg"] /\
  read_conf_d (with_listing three_fragments_world cloud_cfg_d
                 ["10-a.cfg"; "20-b.cfg"; "05-c.cfg"]) cloud_cfg_d []
  = read_conf_d (with_listing three_fragments_world cloud_cfg_d
                   ["05-c.cfg"; "10-a.cfg"; "20-b.cfg"]) cloud_cfg_d [].
Proof.
  assert (Hp : Permutation ["10-a.cfg"; "20-b.cfg"; "05-c.cfg"]
                           ["05-c.cfg"; "10-a.cfg"; "20-b.cfg"]).
  { apply Permutation_sym. apply (Permutation_cons_app ["10-a.cfg"; "20-b.cfg"] []).
    rewrite app_nil_r. apply Permutation_refl. }
  split; [exact Hp|].
  exact (read_conf_d_listing_order three_fragments_world cloud_cfg_d _ _ [] Hp).
Defined.

(** X5. When [read_conf_d] returns, its document has every setting of
    every fragment it read: the entries of the directory that end in
    [.cfg] and are regular files. *)
Theorem read_conf_d_keeps_fragments (w : world) (confd : string) (tr : list event)
    (r : value) (names : list string) (name : string) (frag : value) (t : list event) :
  fst (read_conf_d w confd tr) = Return r ->
  listdir w confd = Return names ->
  In name names ->
  endswith name ".cfg" = true ->
  isfile w (path_join confd name) = true ->
  fst (read_conf w (path_join confd name) t) = Return frag ->
  keeps_settings frag r.
Proof.
  intros H Hl Hin He Hf Hr.
  apply fst_return in H as [tr' H]. apply fst_return in Hr as [t' Hr].
  apply keeps_settings_lookup.
  exact (read_conf_d_keeps _ _ _ _ _ _ _ _ _ _ H Hl Hin He Hf Hr).
Qed.

Lemma read_conf_d_keeps_fragments_witness :
  fst (read_conf_d three_fragments_world cloud_cfg_d [])
  = Return (VDict [("b", VInt 2); ("a", VInt 1); ("c", VInt 3)]) /\
  keeps_settings (VDict [("a", VInt 1)])
                 (VDict [("b", VInt 2); ("a", VInt 1); ("c", VInt 3)]).
Proof.
  split; [reflexivity|].
  apply (read_conf_d_keeps_fragments three_fragments_world cloud_cfg_d [] _
           ["10-a.cfg"; "README"; "20-b.cfg"; "sub.cfg"; "sock.cfg"; "05-c.cfg"]
           "10-a.cfg" _ []); try reflexivity.
  now left.
Defined.

(** X6. When [merge_base_cfg] returns, the configuration has every
    setting of the builtin configuration, if that is not empty, and every
    setting of the system configuration file. *)
Theorem merge_base_cfg_keeps_settings (w : world) (cfgfile : string)
    (cfg_builtin : value) (tr : list event) (fin : value) :
  fst (merge_base_cfg w cfgfile cfg_builtin tr) = Return fin ->
  (truthy cfg_builtin = true -> keeps_settings cfg_builtin fin) /\
  (forall sys, fst (read_conf w cfgfile tr) = Return sys -> keeps_settings sys fin).
Proof.
  intros H. apply fst_return in H as [tr' H].
  pose proof (merge_base_cfg_keeps _ _ _ _ _ _ H) as [Hb Hs].
  split.
  - intros Ht. apply keeps_settings_lookup. auto.
  - intros sys Hr. apply fst_return in Hr as [t Hr].
    apply keeps_settings_lookup.
    pose proof (merge_base_cfg_inv _ _ _ _ _ _ H)
      as (syscfg & kern & combined & t1 & Hsys & _).
    eapply keeps_trans; [|exact (Hs _ _ Hsys)].
    eapply read_conf_with_confd_keeps; eauto.
Qed.

Lemma merge_base_cfg_keeps_settings_witness :
  fst (merge_base_cfg (example_world [(cloud_cfg, File "a: 1")]) cloud_cfg
         (VDict [("z", VInt 9)]) [])
  = Return (VDict [("a", VInt 1); ("z", VInt 9)]) /\
  (truthy (VDict [("z", VInt 9)]) = true ->
   keeps_settings (VDict [("z", VInt 9)]) (VDict [("a", VInt 1); ("z", VInt 9)])) /\
  (forall sys,
     fst (read_conf (example_world [(cloud_cfg, File "a: 1")]) cloud_cfg []) = Return sys ->
     keeps_settings sys (VDict [("a", VInt 1); ("z", VInt 9)])).
Proof.
  split; [reflexivity|].
  apply (merge_base_cfg_keeps_settings (example_world [(cloud_cfg, File "a: 1")])
           cloud_cfg (VDict [("z", VInt 9)]) []).
  reflexivity.
Defined.

(** ** translate_bool *)

Lemma lower_plain s : plain s = true -> lower s = s.
Proof.
  induction s as [|c s IH]; simpl; [reflexivity|].
  intros H. apply andb_prop in H as [Hc Hs]. apply andb_prop in Hc as [_ Hc].
  apply Ascii.eqb_eq in Hc. now rewrite Hc, IH.
Qed.

Lemma rstrip_plain s : plain s = true -> rstrip s = s.
Proof.
  induction s as [|c s IH]; simpl; [reflexivity|].
  intros H. apply andb_prop in H as [Hc Hs]. apply andb_prop in Hc as [Hc _].
  apply negb_true_iff in Hc. rewrite (IH Hs), Hc. now destruct s.
Qed.

Lemma lstrip_plain s : plain s = true -> lstrip s = s.
Proof.
  destruct s as [|c s]; simpl; [reflexivity|].
  intros H. apply andb_prop in H as [Hc Hs]. apply andb_prop in Hc as [Hc _].
  apply negb_true_iff in Hc. now rewrite Hc.
Qed.

Lemma strip_lower_plain s : plain s = true -> strip (lower s) = s.
Proof.
  intros H. rewrite (lower_plain _ H). unfold strip.
  now rewrite (lstrip_plain _ H), (rstrip_plain _ H).
Qed.

Lemma plain_uint d : plain (NilEmpty.string_of_uint d) = true.
Proof. induction d; simpl; auto. Qed.

Lemma plain_str_of_int n : plain (str_of_int n) = true.
Proof.
  unfold str_of_int.
  destruct (Z.to_int n) as [d|d]; simpl; destruct d; simpl; auto using plain_uint.
Qed.

Lemma str_of_int_head n :
  exists c rest, str_of_int n = String c rest /\ (is_digit c = true \/ c = "-"%char).
Proof.
  unfold str_of_int. destruct (Z.to_int n) as [d|d]; simpl.
  - destruct d; simpl; eauto.
  - eauto.
Qed.

Lemma str_of_int_one n : str_of_int n = "1" -> n = 1.
Proof.
  unfold str_of_int. intros H.
  assert (Hi : NilZero.int_of_string (NilZero.string_of_int (Z.to_int n))
               = Some (Z.to_int n)).
  { apply NilZero.isi; destruct n; simpl; try discriminate;
      intros E; injection E; apply DecimalPos.Unsigned.to_uint_nonnil. }
  rewrite H in Hi. cbn in Hi. injection Hi as Hi.
  rewrite <- (DecimalZ.of_to n), <- Hi. reflexivity.
Qed.

(** The text of a list or a dictionary starts with its bracket, which
    [lower] and [strip] keep in front. *)
Lemma strip_lower_head c rest :
  plain_char c = true ->
  exists rest', strip (lower (String c rest)) = String c rest'.
Proof.
  intros H. apply andb_prop in H as [Hs Hl].
  apply negb_true_iff in Hs. apply Ascii.eqb_eq in Hl.
  unfold strip. simpl. rewrite Hl, Hs. simpl.
  destruct (rstrip (lower rest)); rewrite ?Hs; eauto.
Qed.

Lemma in_true_words s :
  existsb (String.eqb s) true_words = true <-> In s true_words.
Proof.
  rewrite existsb_exists. split.
  - intros (x & Hin & He). apply String.eqb_eq in He. now subst.
  - intros H. exists s. split; [assumption|apply String.eqb_refl].
Qed.

Lemma bracket_not_word c rest :
  c = "["%char \/ c = "{"%char ->
  existsb (String.eqb (strip (lower (String c rest)))) true_words = false.
Proof.
  intros Hc.
  destruct (strip_lower_head c rest) as [rest' ->];
    [destruct Hc as [-> | ->]; reflexivity|].
  destruct Hc as [-> | ->]; reflexivity.
Qed.

Lemma translate_bool_int n :
  translate_bool (VInt n) = VBool (n =? 1).
Proof.
  unfold translate_bool. simpl.
  destruct (Z.eqb_spec n 0) as [->|Hn]; [reflexivity|]. simpl.
  rewrite (strip_lower_plain _ (plain_str_of_int n)).
  destruct (Z.eqb_spec n 1) as [->|H1]; [reflexivity|].
  destruct (existsb (String.eqb (str_of_int n)) true_words) eqn:E;
    [|simpl in E; now rewrite E].
  exfalso. apply (in_true_words (str_of_int n)) in E.
  destruct (str_of_int_head n) as (c & rest & Hs & Hc).
  destruct E as [E|[E|[E|[E|[]]]]].
  - rewrite <- E in Hs. injection Hs as <- _. destruct Hc; discriminate.
  - apply H1. apply str_of_int_one. now symmetry.
  - rewrite <- E in Hs. injection Hs as <- _. destruct Hc; discriminate.
  - rewrite <- E in Hs. injection Hs as <- _. destruct Hc; discriminate.
Qed.

Lemma translate_bool_list l : translate_bool (VList l) = VBool false.
Proof.
  unfold translate_bool. destruct l as [|x l]; [reflexivity|].
  cbn [truthy negb is_bool_object py_str py_repr].
  change (existsb _ _) with
    (existsb (String.eqb (strip (lower (String "[" (join ", " (map py_repr (x :: l)) ++ "]")))))
       true_words).
  now rewrite bracket_not_word by auto.
Qed.

Lemma translate_bool_dict d : translate_bool (VDict d) = VBool false.
Proof.
  unfold translate_bool. destruct d as [|x d]; [reflexivity|].
  cbn [truthy negb is_bool_object py_str py_repr].
  match goal with
  | |- context [strip (lower (?a ++ ?b))] =>
      change (a ++ b) with (String "{" b)
  end.
  change ["true"; "1"; "on"; "yes"] with true_words.
  now rewrite bracket_not_word by auto.
Qed.

Lemma translate_bool_str s :
  translate_bool (VStr s) = VBool (existsb (String.eqb (strip (lower s))) true_words).
Proof.
  unfold translate_bool. destruct s as [|c s]; [reflexivity|].
  change (truthy (VStr (String c s))) with true.
  cbn [negb is_bool_object py_str]. fold true_words.
  now destruct (existsb (String.eqb (strip (lower (String c s)))) true_words).
Qed.

(** The values [translate_bool] takes for true. *)
Lemma translate_bool_true v :
  translate_bool v = VBool true <->
  v = VBool true \/ v = VInt 1 \/
  exists s, v = VStr s /\ In (strip (lower s)) true_words.
Proof.
  destruct v as [| b | n | s | l | d].
  - split; [discriminate|]. intros [H|[H|(s & H & _)]]; discriminate.
  - split.
    + destruct b; [auto|discriminate].
    + intros [H|[H|(s & H & _)]]; try discriminate. now inversion H.
  - rewrite translate_bool_int. split.
    + intros H. injection H as H. apply Z.eqb_eq in H. subst. auto.
    + intros [H|[H|(s & H & _)]]; try discriminate. now inversion H.
  - rewrite translate_bool_str. split.
    + intros H. injection H as H. apply in_true_words in H. right. right. eauto.
    + intros [H|[H|(s' & H & Hin)]]; try discriminate.
      inversion H; subst s'. f_equal. now apply in_true_words.
  - rewrite translate_bool_list. split; [discriminate|].
    intros [H|[H|(s & H & _)]]; discriminate.
  - rewrite translate_bool_dict. split; [discriminate|].
    intros [H|[H|(s & H & _)]]; discriminate.
Qed.

(** X7. [translate_bool] always returns a [bool].  It returns [True]
    exactly for [True], for the integer 1, and for a string that, in
    lower case and without surrounding whitespace, is one of [true], [1],
    [on], [yes]; never for a list or a dictionary. *)
Theorem translate_bool_spec (v : value) :
  (exists b, translate_bool v = VBool b) /\
  (translate_bool v = VBool true <->
   v = VBool true \/ v = VInt 1 \/
   exists s, v = VStr s /\ In (strip (lower s)) ["true"; "1"; "on"; "yes"]) /\
  (forall items, translate_bool (VList items) = VBool false) /\
  (forall items, translate_bool (VDict items) = VBool false).
Proof.
  split; [|split; [apply translate_bool_true|split]].
  - destruct v as [| b | n | s | l | d].
    + now exists false.
    + exists b. now destruct b.
    + rewrite translate_bool_int. eauto.
    + rewrite translate_bool_str. eauto.
    + rewrite translate_bool_list. eauto.
    + rewrite translate_bool_dict. eauto.
  - apply translate_bool_list.
  - apply translate_bool_dict.
Qed.

(** ** Options of a configuration *)

(** X8. With the default [False], [get_cfg_option_bool] on a dictionary
    returns [True] exactly when the key is present and holds [True], the
    integer 1, or a string that reads [true], [1], [on] or [yes] whatever
    its case and surrounding whitespace. *)
Theorem get_cfg_option_bool_on (d : list (string * value)) (key : string) :
  get_cfg_option_bool (VDict d) key (VBool false) = Return (VBool true) <->
  exists v, dict_get d key = Some v /\
    (v = VBool true \/ v = VInt 1 \/
     exists s, v = VStr s /\ In (strip (lower s)) ["true"; "1"; "on"; "yes"]).
Proof.
  unfold get_cfg_option_bool, lookup_key.
  destruct (dict_get d key) as [v|]; split.
  - intros H. injection H as H. exists v. split; [reflexivity|].
    now apply translate_bool_true.
  - intros (v' & Hv & H). injection Hv as <-. f_equal. now apply translate_bool_true.
  - discriminate.
  - intros (v' & Hv & _). discriminate.
Qed.

(** X9. Following a chain of keys and then one more key is
    [get_cfg_option_str] for that key on what the chain leads to, in what
    is returned and in what is raised. *)
Theorem get_cfg_by_path_last (y : value) (p : list string) (x : value)
    (key : string) (default : value) :
  at_path y p x ->
  get_cfg_by_path y (p ++ [key]) default = get_cfg_option_str x key default.
Proof.
  intros H. apply at_path_lookup in H. revert y H.
  induction p as [|k p IH]; intros y H; simpl in H.
  - injection H as ->. simpl. unfold get_cfg_option_str.
    destruct (lookup_key x key) as [[v|]|e]; reflexivity.
  - destruct y as [| b | n | s | l | d]; try discriminate.
    destruct (dict_get d k) as [z|] eqn:Hk; [|discriminate].
    simpl. rewrite Hk. now apply IH.
Qed.

Lemma get_cfg_by_path_last_witness :
  at_path (VDict [("a", VDict [("b", VStr "x")])]) ["a"] (VDict [("b", VStr "x")]) /\
  get_cfg_by_path (VDict [("a", VDict [("b", VStr "x")])]) (["a"] ++ ["b"]) VNone
  = get_cfg_option_str (VDict [("b", VStr "x")]) "b" VNone.
Proof.
  assert (H : at_path (VDict [("a", VDict [("b", VStr "x")])]) ["a"]
                (VDict [("b", VStr "x")])) by (intros default; reflexivity).
  split; [exact H|].
  exact (get_cfg_by_path_last _ ["a"] _ "b" VNone H).
Defined.

(** ** clean_filename *)

Lemma index_char_none c s :
  has_char c s = false -> String.index 0 (String c EmptyString) s = None.
Proof.
  induction s as [|a s IH]; cbn [has_char]; intros H; [reflexivity|].
  apply orb_false_elim in H as [Ha Hs].
  cbn [String.index]. rewrite prefix_cons, Ascii.eqb_sym, Ha. cbn [andb].
  now rewrite (IH Hs).
Qed.

Lemma find_char_none c s : has_char c s = false -> find s (String c EmptyString) 0 = -1.
Proof.
  intros H. unfold find. change (Z.to_nat 0) with 0%nat.
  now rewrite (index_char_none _ _ H).
Qed.

Lemma has_char_app c a b : has_char c (a ++ b) = has_char c a || has_char c b.
Proof.
  induction a as [|x a IH]; simpl; [reflexivity|]. now rewrite IH, orb_assoc.
Qed.

Lemma has_char_lstrip c s : has_char c s = false -> has_char c (lstrip s) = false.
Proof.
  induction s as [|a s IH]; simpl; intros H; [reflexivity|].
  destruct (is_space a); [|exact H].
  apply orb_false_elim in H as [_ Hs]. auto.
Qed.

Lemma has_char_rstrip c s : has_char c s = false -> has_char c (rstrip s) = false.
Proof.
  induction s as [|a s IH]; simpl; intros H; [reflexivity|].
  apply orb_false_elim in H as [Ha Hs]. specialize (IH Hs).
  destruct (rstrip s) as [|b t].
  - destruct (is_space a); simpl; [reflexivity|]. now rewrite Ha.
  - simpl in *. now rewrite Ha, IH.
Qed.

Lemma replace_char_absent c d s :
  Ascii.eqb d c = false ->
  has_char c (replace s (String c EmptyString) (String d EmptyString)) = false.
Proof.
  intros Hd. unfold replace.
  induction s as [|a s IH]; [reflexivity|].
  cbn [replace_from]. rewrite prefix_cons.
  replace (String.prefix "" s) with true by now destruct s.
  destruct (Ascii.eqb c a) eqn:Hca; cbn [andb String.length Nat.sub String.append has_char].
  - now rewrite Hd.
  - now rewrite Ascii.eqb_sym, Hca.
Qed.

Lemma replace_char_id c new s :
  has_char c s = false -> replace s (String c EmptyString) new = s.
Proof.
  unfold replace. induction s as [|a s IH]; [reflexivity|]. simpl has_char.
  intros H. apply orb_false_elim in H as [Ha Hs].
  cbn [replace_from]. rewrite prefix_cons, Ascii.eqb_sym, Ha. cbn [andb].
  now rewrite IH.
Qed.

Lemma rstrip_idem s : rstrip (rstrip s) = rstrip s.
Proof.
  induction s as [|a s IH]; [reflexivity|]. simpl.
  destruct (rstrip s) as [|b t] eqn:Hr.
  - destruct (is_space a) eqn:Ha; [reflexivity|]. simpl. now rewrite Ha.
  - simpl in IH |- *. now rewrite IH.
Qed.

(** A string that does not start with whitespace still does not once
    stripped on the right. *)
Lemma lstrip_rstrip s : lstrip s = s -> lstrip (rstrip s) = rstrip s.
Proof.
  destruct s as [|a s]; [reflexivity|]. simpl.
  destruct (is_space a) eqn:Ha.
  - intros H. exfalso.
    assert (Hl : forall t, (String.length (lstrip t) <= String.length t)%nat).
    { induction t as [|x t IHt]; simpl; [lia|]. destruct (is_space x); simpl; lia. }
    specialize (Hl s). rewrite H in Hl. simpl in Hl. lia.
  - intros _. destruct (rstrip s); simpl; now rewrite Ha.
Qed.

Lemma lstrip_idem s : lstrip (lstrip s) = lstrip s.
Proof.
  induction s as [|a s IH]; [reflexivity|]. simpl.
  destruct (is_space a) eqn:Ha; [exact IH|]. simpl. now rewrite Ha.
Qed.

Lemma strip_idem s : strip (strip s) = strip s.
Proof.
  unfold strip. rewrite (lstrip_rstrip (lstrip s)) by apply lstrip_idem.
  apply rstrip_idem.
Qed.

(** X11. A cleaned file name holds no slash, has no whitespace at
    either end, and cleaning it again changes nothing. *)
Theorem clean_filename_clean (fn : string) :
  find (clean_filename fn) "/" 0 = -1 /\
  strip (clean_filename fn) = clean_filename fn /\
  clean_filename (clean_filename fn) = clean_filename fn.
Proof.
  assert (Hno : has_char "/" (clean_filename fn) = false).
  { unfold clean_filename, strip. simpl.
    apply has_char_rstrip, has_char_lstrip. now apply replace_char_absent. }
  split; [now apply find_char_none|]. split.
  - apply strip_idem.
  - unfold clean_filename at 1. simpl fold_left.
    rewrite (replace_char_id _ _ _ Hno). apply strip_idem.
Qed.

(** ** dos2unix *)

Lemma index_char_first c a rest :
  has_char c a = false ->
  String.index 0 (String c EmptyString) (a ++ String c rest) = Some (String.length a).
Proof.
  induction a as [|x a IH]; cbn [has_char String.append String.length]; intros H.
  - cbn [String.index]. rewrite prefix_cons, Ascii.eqb_refl.
    now replace (String.prefix "" rest) with true by now destruct rest.
  - apply orb_false_elim in H as [Hx Ha].
    cbn [String.index]. rewrite prefix_cons, Ascii.eqb_sym, Hx. cbn [andb].
    now rewrite (IH Ha).
Qed.

Lemma get_app_right a : forall b, String.get (String.length a) (a ++ b) = String.get 0 b.
Proof. induction a as [|x a IH]; intros b; [reflexivity|]. simpl. apply IH. Qed.

Lemma get_snoc a c b : String.get (String.length a) (a ++ String c b) = Some c.
Proof. now rewrite get_app_right. Qed.

(** Copying a stretch without carriage return. *)
Lemma replace_crlf_skip a : forall rest,
  has_char CR a = false ->
  replace_from (String CR nl) nl 0 (a ++ rest)
  = a ++ replace_from (String CR nl) nl 0 rest.
Proof.
  induction a as [|x a IH]; intros rest H; [reflexivity|].
  cbn [has_char] in H. apply orb_false_elim in H as [Hx Ha].
  cbn [String.append replace_from]. rewrite prefix_cons, Ascii.eqb_sym, Hx.
  cbn [andb]. now rewrite (IH _ Ha).
Qed.

Lemma replace_crlf_here rest :
  replace_from (String CR nl) nl 0 (String CR (nl ++ rest))
  = nl ++ replace_from (String CR nl) nl 0 rest.
Proof.
  cbn [replace_from]. rewrite prefix_cons, Ascii.eqb_refl. cbn [andb].
  replace (String.prefix nl (nl ++ rest)) with true by (symmetry; apply prefix_app).
  reflexivity.
Qed.

Lemma concat_cons x xs : String.concat "" (x :: xs) = x ++ String.concat "" xs.
Proof. destruct xs; simpl; [now rewrite append_nil_r|reflexivity]. Qed.

Lemma text_of_cons eol l lines : text_of eol (l :: lines) = l ++ eol ++ text_of eol lines.
Proof. unfold text_of. cbn [map]. now rewrite concat_cons, append_assoc. Qed.

Lemma replace_crlf_text lines :
  Forall (fun l => has_char CR l = false) lines ->
  replace (text_of (String CR nl) lines) (String CR nl) nl = text_of nl lines.
Proof.
  unfold replace. induction 1 as [|l lines Hl _ IH]; [reflexivity|].
  rewrite !text_of_cons, (replace_crlf_skip _ _ Hl).
  change (String CR nl ++ text_of (String CR nl) lines)
    with (String CR (nl ++ text_of (String CR nl) lines)).
  now rewrite replace_crlf_here, IH.
Qed.

(** X12. Text made of lines that each end in a carriage return and a
    line feed, and hold neither character elsewhere, is converted whole:
    every line then ends in a line feed alone. *)
Theorem dos2unix_crlf_text (lines : list string) :
  Forall (fun l => has_char CR l = false /\ has_char LF l = false) lines ->
  dos2unix (text_of (String CR nl) lines) = text_of nl lines.
Proof.
  intros H. destruct lines as [|l lines]; [reflexivity|].
  assert (Hcr : Forall (fun l => has_char CR l = false) (l :: lines))
    by (eapply List.Forall_impl; [|exact H]; now intros ? []).
  inversion H as [|? ? [Hl1 Hl2] _]; subst.
  unfold dos2unix.
  assert (Hpos : find (text_of (String CR nl) (l :: lines)) nl 0
                 = Z.of_nat (String.length l) + 1).
  { unfold find. change (Z.to_nat 0) with 0%nat. rewrite text_of_cons.
    change (l ++ String CR nl ++ text_of (String CR nl) lines)
      with (l ++ String CR (String LF (text_of (String CR nl) lines))).
    replace (l ++ String CR (String LF (text_of (String CR nl) lines)))
      with ((l ++ String CR EmptyString) ++ String LF (text_of (String CR nl) lines))
      by now rewrite append_assoc.
    unfold nl. rewrite index_char_first.
    - rewrite length_append. simpl. lia.
    - rewrite has_char_app, Hl2. reflexivity. }
  rewrite Hpos.
  replace (Z.of_nat (String.length l) + 1 <=? 0) with false by (symmetry; apply Z.leb_gt; lia).
  unfold char_at.
  replace (Z.to_nat (Z.of_nat (String.length l) + 1 - 1)) with (String.length l) by lia.
  rewrite text_of_cons.
  change (l ++ String CR nl ++ text_of (String CR nl) lines)
    with (l ++ String CR (nl ++ text_of (String CR nl) lines)).
  rewrite get_snoc, Ascii.eqb_refl. cbn [orb negb].
  change (l ++ String CR (nl ++ text_of (String CR nl) lines))
    with (l ++ String CR nl ++ text_of (String CR nl) lines).
  rewrite <- text_of_cons. now apply replace_crlf_text.
Qed.

Lemma dos2unix_crlf_text_witness :
  Forall (fun l => has_char CR l = false /\ has_char LF l = false) ["a"; ""; "b c"] /\
  dos2unix (text_of (String CR nl) ["a"; ""; "b c"]) = text_of nl ["a"; ""; "b c"].
Proof.
  assert (H : Forall (fun l => has_char CR l = false /\ has_char LF l = false)
                ["a"; ""; "b c"]) by (repeat constructor).
  split; [exact H|]. exact (dos2unix_crlf_text _ H).
Defined.

Lemma endswith_snoc a c d :
  endswith (a ++ String c EmptyString) (String d EmptyString) = Ascii.eqb c d.
Proof.
  unfold endswith. rewrite length_append. simpl String.length.
  replace (1 <=? String.length a + 1)%nat with true by (symmetry; apply Nat.leb_le; lia).
  replace (String.length a + 1 - 1)%nat with (String.length a) by lia.
  assert (E : substring (String.length a) 1 (a ++ String c EmptyString) = String c EmptyString)
    by (induction a; simpl; auto).
  rewrite E. simpl. destruct (Ascii.eqb c d); reflexivity.
Qed.

Lemma snoc_cases (a : string) :
  a = EmptyString \/ exists a' c, a = a' ++ String c EmptyString.
Proof.
  induction a as [|x a [->|(a' & c & ->)]]; [now left| |]; right.
  - now exists EmptyString, x.
  - now exists (String x a'), c.
Qed.

(** X13. Only the first line is looked at: text whose first line does
    not end in a carriage return is returned as it is, whatever line
    ends follow. *)
Theorem dos2unix_first_line (a b : string) :
  has_char LF a = false ->
  endswith a (String CR EmptyString) = false ->
  dos2unix (a ++ nl ++ b) = a ++ nl ++ b.
Proof.
  intros Hlf Hend. unfold dos2unix.
  assert (Hpos : find (a ++ nl ++ b) nl 0 = Z.of_nat (String.length a)).
  { unfold find. change (Z.to_nat 0) with 0%nat.
    change (String.index 0 nl (a ++ nl ++ b))
      with (String.index 0 (String LF EmptyString) (a ++ String LF b)).
    now rewrite (index_char_first LF a b Hlf). }
  rewrite Hpos.
  destruct (snoc_cases a) as [->|(a' & c & ->)]; [reflexivity|].
  rewrite endswith_snoc in Hend.
  rewrite length_append. simpl String.length.
  replace (Z.of_nat (String.length a' + 1) <=? 0) with false
    by (symmetry; apply Z.leb_gt; lia).
  unfold char_at.
  replace (Z.to_nat (Z.of_nat (String.length a' + 1) - 1)) with (String.length a') by lia.
  rewrite (append_assoc a' (String c EmptyString) (nl ++ b)).
  change (String c EmptyString ++ nl ++ b) with (String c (nl ++ b)).
  now rewrite get_snoc, Hend.
Qed.

Lemma dos2unix_first_line_witness :
  has_char LF "a" = false /\
  endswith "a" (String CR EmptyString) = false /\
  dos2unix ("a" ++ nl ++ String "b" (String CR nl))
  = "a" ++ nl ++ String "b" (String CR nl).
Proof.
  split; [reflexivity|]. split; [reflexivity|].
  apply (dos2unix_first_line "a" (String "b" (String CR nl))); reflexivity.
Defined.

(** ** shellify *)

Lemma read_quoted s : forall w fields cmds rest,
  sh_read Quoted (Some w) fields cmds (replace s "'" escaped ++ "'" ++ rest)
  = sh_read Unquoted (Some (w ++ s)) fields cmds rest.
Proof.
  unfold replace. induction s as [|c s IH]; intros w fields cmds rest.
  - simpl. now rewrite append_nil_r.
  - cbn [replace_from]. rewrite prefix_cons.
    replace (String.prefix "" s) with true by now destruct s.
    rewrite andb_true_r.
    replace (w ++ String c s) with ((w ++ String c EmptyString) ++ s)
      by now rewrite append_assoc.
    destruct (Ascii.eqb "'" c) eqn:Hc.
    + apply Ascii.eqb_eq in Hc. subst c.
      cbn [String.length Nat.sub]. unfold escaped.
      cbn [String.append sh_read Ascii.eqb Bool.eqb word_so_far]. apply IH.
    + cbn [String.append sh_read]. rewrite Ascii.eqb_sym, Hc.
      cbn [word_so_far]. apply IH.
Qed.

Lemma read_protect f word fields cmds rest :
  sh_read Unquoted word fields cmds (shell_protect f ++ rest)
  = sh_read Unquoted (Some (word_so_far word ++ py_str f)) fields cmds rest.
Proof.
  unfold shell_protect. rewrite !append_assoc.
  change ("'" ++ replace (py_str f) "'" escaped ++ "'" ++ rest)
    with (String "'" (replace (py_str f) "'" escaped ++ "'" ++ rest)).
  cbn [sh_read Ascii.eqb Bool.eqb]. apply read_quoted.
Qed.

Lemma join_cons sep x y l : join sep (x :: y :: l) = x ++ sep ++ join sep (y :: l).
Proof. reflexivity. Qed.

Lemma read_fields items : forall fields cmds rest,
  sh_read Unquoted None fields cmds (join " " (map shell_protect items) ++ nl ++ rest)
  = sh_read Unquoted None [] (cmds ++ [fields ++ map py_str items])%list rest.
Proof.
  induction items as [|x items IH]; intros fields cmds rest.
  - simpl. now rewrite app_nil_r.
  - destruct items as [|y items].
    + cbn [map join String.concat]. rewrite read_protect. reflexivity.
    + cbn [map]. rewrite join_cons, !append_assoc, read_protect.
      change (" " ++ join " " (shell_protect y :: map shell_protect items) ++ nl ++ rest)
        with (String " " (join " " (map shell_protect (y :: items)) ++ nl ++ rest)).
      cbn [sh_read Ascii.eqb Bool.eqb end_word word_so_far String.append].
      rewrite IH. now rewrite <- app_assoc.
Qed.

(** What the loop of [shellify] appends for commands that are lists. *)
Lemma shellify_lists cmds : forall content,
  fold_left
    (fun content args =>
       match args with
       | VList items => content ++ join " " (map shell_protect items) ++ nl
       | _ => content ++ py_str args ++ nl
       end)
    (map VList cmds) content
  = content ++ text_of nl (map (fun items => join " " (map shell_protect items)) cmds).
Proof.
  induction cmds as [|items cmds IH]; intros content.
  - simpl. now rewrite append_nil_r.
  - cbn [map fold_left]. rewrite IH, text_of_cons, !append_assoc. reflexivity.
Qed.

Lemma read_commands cmds : forall done,
  sh_read Unquoted None [] done
    (text_of nl (map (fun items => join " " (map shell_protect items)) cmds))
  = Some (done ++ map (map py_str) cmds)%list.
Proof.
  induction cmds as [|items cmds IH]; intros done.
  - simpl. now rewrite app_nil_r.
  - cbn [map]. rewrite text_of_cons, read_fields, IH.
    now rewrite <- app_assoc.
Qed.

(** X14. A script written without header from commands that are lists
    reads back, by the shell's rules for single quotes, backslashes,
    spaces and line ends, as the same commands: one command per list and
    one word per item, each word being [str] of the item, whatever
    characters it holds. *)
Theorem shellify_read_back (cmds : list (list value)) :
  sh_commands (shellify (map VList cmds) false) = Some (map (map py_str) cmds).
Proof.
  unfold sh_commands, shellify. rewrite shellify_lists. apply (read_commands cmds []).
Qed.

(** ** get_proc_env *)

Lemma split_char_app sep a rest :
  has_char sep a = false ->
  split_char sep (a ++ String sep rest) = a :: split_char sep rest.
Proof.
  induction a as [|x a IH]; cbn [has_char String.append split_char]; intros H.
  - now rewrite Ascii.eqb_refl.
  - apply orb_false_elim in H as [Hx Ha]. now rewrite Hx, (IH Ha).
Qed.

Lemma split_once_none sep tok :
  has_char sep tok = false -> split_once sep tok = [tok].
Proof.
  induction tok as [|x a IH]; cbn [has_char split_once]; intros H; [reflexivity|].
  apply orb_false_elim in H as [Hx Ha]. now rewrite Hx, (IH Ha).
Qed.

Lemma split_once_app sep a b :
  has_char sep a = false -> split_once sep (a ++ String sep b) = [a; b].
Proof.
  induction a as [|x a IH]; cbn [has_char String.append split_once]; intros H.
  - now rewrite Ascii.eqb_refl.
  - apply orb_false_elim in H as [Hx Ha]. now rewrite Hx, (IH Ha).
Qed.

Lemma has_char_split sep tok :
  has_char sep tok = true ->
  exists a b, tok = a ++ String sep b /\ has_char sep a = false.
Proof.
  induction tok as [|x t IH]; cbn [has_char]; intros H; [discriminate|].
  destruct (Ascii.eqb x sep) eqn:Hx.
  - apply Ascii.eqb_eq in Hx. subst. now exists EmptyString, t.
  - destruct (IH H) as (a & b & -> & Ha). exists (String x a), b.
    split; [reflexivity|]. cbn [has_char]. now rewrite Hx, Ha.
Qed.

(** An entry is read when it is empty or holds an equals sign. *)
Lemma proc_env_scan_spec toks : forall env,
  (exists env', proc_env_scan toks env = Return env' /\
     Forall (fun tok => tok = EmptyString \/ has_char "=" tok = true) toks) \/
  (proc_env_scan toks env = Raise unpack_error /\
     exists tok, In tok toks /\ tok <> EmptyString /\ has_char "=" tok = false).
Proof.
  induction toks as [|tok toks IH]; intros env; cbn [proc_env_scan].
  - left. eauto.
  - destruct (String.eqb_spec tok "") as [->|Hne].
    + destruct (IH env) as [(env' & He & Hall)|(He & bad & Hin & Hb)].
      * left. exists env'. split; [assumption|]. constructor; auto.
      * right. split; [assumption|]. exists bad. split; [now right|assumption].
    + destruct (has_char "=" tok) eqn:Heq.
      * destruct (has_char_split _ _ Heq) as (a & b & -> & Ha).
        rewrite (split_once_app _ _ _ Ha).
        destruct (IH (if truthy (VStr a) then dict_set env a (VStr b) else env))
          as [(env' & He & Hall)|(He & bad & Hin & Hb)].
        -- left. exists env'. split; [assumption|]. constructor; auto.
        -- right. split; [assumption|]. exists bad. split; [now right|assumption].
      * rewrite (split_once_none _ _ Heq). right. split; [reflexivity|].
        exists tok. split; [now left|auto].
Qed.

Lemma get_proc_env_file w pid content tr :
  fs w !! environ_path pid = Some (File content) ->
  fst (get_proc_env w pid tr) = proc_env_scan (split_char NUL content) [].
Proof.
  intros Hf. unfold get_proc_env, try_except, load_file, open_read, bind, lift,
    LOG_debug, emit, ret.
  fold (environ_path pid). rewrite Hf. cbn.
  fold NUL.
  destruct (proc_env_scan_spec (split_char NUL content) [])
    as [(env' & -> & _)|(-> & _)]; reflexivity.
Qed.




Lemma proc_env_scan_pairs pairs : forall env,
  Forall (fun nv => fst nv <> EmptyString /\ has_char "=" (fst nv) = false /\
                    has_char NUL (fst nv) = false /\ has_char NUL (snd nv) = false) pairs ->
  proc_env_scan (split_char NUL (environ_text pairs)) env
  = Return (fold_left (fun env nv => dict_set env (fst nv) (VStr (snd nv))) pairs env).
Proof.
  unfold environ_text.
  induction pairs as [|[n v] pairs IH]; intros env H; [reflexivity|].
  inversion H as [|? ? (Hn & Heq & Hn0 & Hv0) Hrest]; subst. simpl in Hn, Heq, Hn0, Hv0.
  cbn [map fst snd]. rewrite text_of_cons.
  change (String NUL EmptyString ++ ?x) with (String NUL x).
  rewrite split_char_app
    by (rewrite !has_char_app, Hn0, Hv0; reflexivity).
  cbn [proc_env_scan fold_left fst snd].
  destruct (String.eqb_spec (n ++ "=" ++ v) "") as [E|_];
    [destruct n; [congruence|discriminate]|].
  change (n ++ "=" ++ v) with (n ++ String "=" v).
  rewrite (split_once_app _ _ _ Heq).
  replace (truthy (VStr n)) with true
    by (destruct n; [congruence|reflexivity]).
  apply IH. exact Hrest.
Qed.

(** X16. A well-formed environment file reads back: for names that are
    not empty and hold neither an equals sign nor a null character, and
    values that hold no null character, [get_proc_env] returns the
    dictionary that assigning the variables in order builds, a later
    value for a name replacing an earlier one. *)
Theorem get_proc_env_read_back (w : world) (pid : value)
    (pairs : list (string * string)) (tr : list event) :
  fs w !! environ_path pid = Some (File (environ_text pairs)) ->
  Forall (fun nv => fst nv <> EmptyString /\ has_char "=" (fst nv) = false /\
                    has_char NUL (fst nv) = false /\ has_char NUL (snd nv) = false) pairs ->
  fst (get_proc_env w pid tr) = Return (dict_of pairs).
Proof.
  intros Hf Hwf. rewrite (get_proc_env_file _ _ _ _ Hf).
  now apply proc_env_scan_pairs.
Qed.

Lemma get_proc_env_read_back_witness :
  fs (example_world
        [("/proc/7/environ", File (environ_text [("A", "1"); ("B", "2=3"); ("A", "4")]))])
    !! environ_path (VInt 7)
  = Some (File (environ_text [("A", "1"); ("B", "2=3"); ("A", "4")])) /\
  fst (get_proc_env
         (example_world
            [("/proc/7/environ",
              File (environ_text [("A", "1"); ("B", "2=3"); ("A", "4")]))])
         (VInt 7) [])
  = Return [("A", VStr "4"); ("B", VStr "2=3")].
Proof.
  split; [reflexivity|].
  apply (get_proc_env_read_back
           (example_world
              [("/proc/7/environ",
                File (environ_text [("A", "1"); ("B", "2=3"); ("A", "4")]))])
           (VInt 7) [("A", "1"); ("B", "2=3"); ("A", "4")] []).
  - reflexivity.
  - repeat constructor; discriminate.
Defined.

(** ** get_fqdn_from_hosts *)

Lemma splitlines_line l : forall rest,
  has_char CR l = false -> has_char LF l = false ->
  splitlines (l ++ nl ++ rest) = l :: splitlines rest.
Proof.
  induction l as [|c l IH]; intros rest Hcr Hlf.
  - reflexivity.
  - cbn [has_char] in Hcr, Hlf.
    apply orb_false_elim in Hcr as [Hc1 Hcr]. apply orb_false_elim in Hlf as [Hc2 Hlf].
    cbn [String.append splitlines]. rewrite Hc1, Hc2. now rewrite (IH rest Hcr Hlf).
Qed.

Lemma splitlines_text lines :
  Forall (fun l => has_char CR l = false /\ has_char LF l = false) lines ->
  splitlines (text_of nl lines) = lines.
Proof.
  induction 1 as [|l lines [Hcr Hlf] _ IH]; [reflexivity|].
  now rewrite text_of_cons, splitlines_line, IH.
Qed.

Lemma field_chars_not c s :
  is_space c = true \/ c = "#"%char -> field_chars s = true -> has_char c s = false.
Proof.
  intros Hc. induction s as [|x s IH]; cbn [field_chars has_char]; [reflexivity|].
  intros H. apply andb_prop in H as [Hx Hs]. apply andb_prop in Hx as [Hx1 Hx2].
  rewrite (IH Hs), orb_false_r.
  apply negb_true_iff in Hx1, Hx2.
  destruct (Ascii.eqb_spec x c) as [->|]; [|reflexivity].
  destruct Hc as [Hc| ->]; [congruence|]. now rewrite Ascii.eqb_refl in Hx2.
Qed.

Lemma is_field_inv s :
  is_field s = true ->
  exists c s', s = String c s' /\ is_space c = false /\ field_chars s = true.
Proof.
  unfold is_field. intros H. apply andb_prop in H as [Hne Hf].
  destruct s as [|c s']; [discriminate|]. exists c, s'. split; [reflexivity|].
  split; [|assumption]. cbn [field_chars] in Hf.
  apply andb_prop in Hf as [Hc _]. apply andb_prop in Hc as [Hc _].
  now apply negb_true_iff in Hc.
Qed.

(** A line of fields holds no character that its fields and the
    separating space do not hold. *)
Lemma has_char_join c fields :
  Ascii.eqb " " c = false ->
  Forall (fun f => has_char c f = false) fields ->
  has_char c (join " " fields) = false.
Proof.
  intros Hc. induction 1 as [|f fields Hf Hall IH]; [reflexivity|].
  destruct fields as [|g fields]; [exact Hf|].
  rewrite join_cons, !has_char_app, Hf, IH. cbn [has_char]. now rewrite Hc.
Qed.

Lemma split_ws_field f :
  is_field f = true -> split_ws f = [f].
Proof.
  intros H. destruct (is_field_inv _ H) as (c & s & -> & _ & Hf). clear H.
  revert c Hf. induction s as [|d s IH]; intros c Hf; cbn [field_chars] in Hf.
  - apply andb_prop in Hf as [Hc _]. apply andb_prop in Hc as [Hc _].
    apply negb_true_iff in Hc. cbn [split_ws]. now rewrite Hc.
  - apply andb_prop in Hf as [Hc Hf]. apply andb_prop in Hc as [Hc _].
    apply negb_true_iff in Hc.
    pose proof Hf as Hf'. cbn [field_chars] in Hf'.
    apply andb_prop in Hf' as [Hd _]. apply andb_prop in Hd as [Hd _].
    apply negb_true_iff in Hd.
    specialize (IH d Hf).
    change (split_ws (String c (String d s)))
      with (if is_space c then split_ws (String d s)
            else if is_space d then String c EmptyString :: split_ws (String d s)
            else match split_ws (String d s) with
                 | word :: words => String c word :: words
                 | [] => [String c EmptyString]
                 end).
    now rewrite Hc, Hd, IH.
Qed.

Lemma split_ws_field_space f rest :
  is_field f = true ->
  split_ws (f ++ String " " rest) = f :: split_ws rest.
Proof.
  intros H. destruct (is_field_inv _ H) as (c & s & -> & _ & Hf). clear H.
  revert c Hf. induction s as [|d s IH]; intros c Hf; cbn [field_chars] in Hf.
  - apply andb_prop in Hf as [Hc _]. apply andb_prop in Hc as [Hc _].
    apply negb_true_iff in Hc. cbn [String.append split_ws]. now rewrite Hc.
  - apply andb_prop in Hf as [Hc Hf]. apply andb_prop in Hc as [Hc _].
    apply negb_true_iff in Hc.
    pose proof Hf as Hf'. cbn [field_chars] in Hf'.
    apply andb_prop in Hf' as [Hd _]. apply andb_prop in Hd as [Hd _].
    apply negb_true_iff in Hd.
    specialize (IH d Hf).
    change (split_ws (String c (String d s) ++ String " " rest))
      with (if is_space c then split_ws (String d s ++ String " " rest)
            else if is_space d
                 then String c EmptyString :: split_ws (String d s ++ String " " rest)
            else match split_ws (String d s ++ String " " rest) with
                 | word :: words => String c word :: words
                 | [] => [String c EmptyString]
                 end).
    now rewrite Hc, Hd, IH.
Qed.

Lemma split_ws_join fields :
  Forall (fun f => is_field f = true) fields ->
  split_ws (join " " fields) = fields.
Proof.
  induction 1 as [|f fields Hf Hall IH]; [reflexivity|].
  destruct fields as [|g fields]; [now apply split_ws_field|].
  rewrite join_cons.
  change (f ++ " " ++ join " " (g :: fields)) with (f ++ String " " (join " " (g :: fields))).
  now rewrite split_ws_field_space, IH.
Qed.

Lemma rstrip_field f : field_chars f = true -> rstrip f = f.
Proof.
  induction f as [|c f IH]; [reflexivity|]. cbn [field_chars rstrip]. intros H.
  apply andb_prop in H as [Hc Hf]. apply andb_prop in Hc as [Hc _].
  apply negb_true_iff in Hc. rewrite (IH Hf), Hc. now destruct f.
Qed.

Lemma rstrip_app a b :
  rstrip b <> EmptyString -> rstrip (a ++ b) = a ++ rstrip b.
Proof.
  intros Hb. induction a as [|x a IH]; [reflexivity|].
  cbn [String.append rstrip]. rewrite IH.
  destruct (a ++ rstrip b) eqn:E; [|reflexivity].
  destruct a; simpl in E; [congruence|discriminate].
Qed.

Lemma rstrip_join fields :
  fields <> [] ->
  Forall (fun f => is_field f = true) fields ->
  rstrip (join " " fields) = join " " fields /\ join " " fields <> EmptyString.
Proof.
  intros Hne H. induction H as [|f fields Hf Hall IH]; [congruence|].
  destruct (is_field_inv _ Hf) as (c & s & -> & Hc & Hfc).
  destruct fields as [|g fields].
  - cbn [join String.concat]. split; [now apply rstrip_field|discriminate].
  - destruct IH as [IH1 IH2]; [discriminate|].
    rewrite join_cons. split; [|discriminate].
    rewrite rstrip_app.
    + f_equal. rewrite rstrip_app by now rewrite IH1. now rewrite IH1.
    + rewrite rstrip_app by now rewrite IH1. discriminate.
Qed.

Lemma strip_join fields :
  fields <> [] ->
  Forall (fun f => is_field f = true) fields ->
  strip (join " " fields) = join " " fields.
Proof.
  intros Hne H. unfold strip.
  assert (Hl : lstrip (join " " fields) = join " " fields).
  { destruct fields as [|f fields]; [congruence|].
    inversion H as [|? ? Hf _]; subst.
    destruct (is_field_inv _ Hf) as (c & s & -> & Hc & _).
    destruct fields; cbn [join String.concat String.append lstrip]; now rewrite Hc. }
  rewrite Hl. now apply rstrip_join.
Qed.

Lemma hosts_scan_entries hostname entries :
  Forall entry_ok entries ->
  hosts_scan hostname (map (fun e => join " " (entry_fields e)) entries)
  = canonical_of_alias hostname entries.
Proof.
  induction 1 as [|[[address canonical] aliases] entries He _ IH]; [reflexivity|].
  unfold entry_ok in He. cbn [map hosts_scan canonical_of_alias].
  set (line := join " " (entry_fields (address, canonical, aliases))).
  assert (Hhash : find line "#" 0 = -1).
  { apply find_char_none. apply has_char_join; [reflexivity|].
    eapply List.Forall_impl; [|exact He]. intros f Hf.
    destruct (is_field_inv _ Hf) as (c & s & -> & _ & Hfc).
    apply field_chars_not; auto. }
  rewrite Hhash. cbn [Z.geb Z.compare].
  assert (Hstrip : strip line = line) by (apply strip_join; [discriminate|exact He]).
  rewrite Hstrip.
  assert (Hline : truthy (VStr line) = true).
  { assert (Hnn : entry_fields (address, canonical, aliases) <> [])
      by (cbn [entry_fields]; discriminate).
    cbn [truthy]. destruct (rstrip_join _ Hnn He) as [_ Hne].
    fold line in Hne. destruct line; [congruence|reflexivity]. }
  rewrite Hline. cbn [negb].
  unfold line. rewrite (split_ws_join _ He). cbn [entry_fields length skipn nth].
  destruct aliases as [|a aliases]; [exact IH|].
  cbn [Nat.ltb Nat.leb]. now rewrite IH.
Qed.

Lemma entry_line_chars c e :
  is_space c = true -> Ascii.eqb " " c = false -> entry_ok e ->
  has_char c (join " " (entry_fields e)) = false.
Proof.
  intros Hc Hsp He. apply has_char_join; [assumption|].
  eapply List.Forall_impl; [|exact He]. intros f Hf.
  destruct (is_field_inv _ Hf) as (x & s & -> & _ & Hfc).
  apply field_chars_not; auto.
Qed.

(** X17. For a hosts file of well-formed entries, one per line,
    [get_fqdn_from_hosts] returns the canonical name of the first entry
    that lists the host name among its aliases, and [None] when no entry
    does: an entry is not found by its canonical name, and an entry
    without aliases is never found. *)
Theorem get_fqdn_from_hosts_entries (w : world) (hostname filename : string)
    (entries : list host_entry) (tr : list event) :
  fs w !! filename = Some (File (hosts_text entries)) ->
  Forall entry_ok entries ->
  fst (get_fqdn_from_hosts w hostname filename tr)
  = Return (canonical_of_alias hostname entries).
Proof.
  intros Hf Hok.
  unfold get_fqdn_from_hosts, try_except, load_file, open_read, bind, lift,
    LOG_debug, emit, ret.
  rewrite Hf. cbn [fst]. unfold hosts_text. rewrite splitlines_text.
  - now rewrite hosts_scan_entries.
  - apply Forall_map. eapply List.Forall_impl; [|exact Hok]. intros e He.
    split; apply entry_line_chars; auto.
Qed.

Lemma get_fqdn_from_hosts_entries_witness :
  fs (example_world
        [("/etc/hosts",
          File (hosts_text [("127.0.0.1", "localhost", []);
                            ("10.0.0.5", "web.example.com", ["web"; "www"])]))])
    !! "/etc/hosts"
  = Some (File (hosts_text [("127.0.0.1", "localhost", []);
                            ("10.0.0.5", "web.example.com", ["web"; "www"])])) /\
  fst (get_fqdn_from_hosts
         (example_world
            [("/etc/hosts",
              File (hosts_text [("127.0.0.1", "localhost", []);
                                ("10.0.0.5", "web.example.com", ["web"; "www"])]))])
         "www" "/etc/hosts" [])
  = Return (Some "web.example.com") /\
  fst (get_fqdn_from_hosts
         (example_world
            [("/etc/hosts",
              File (hosts_text [("127.0.0.1", "localhost", []);
                                ("10.0.0.5", "web.example.com", ["web"; "www"])]))])
         "localhost" "/etc/hosts" [])
  = Return None.
Proof.
  split; [reflexivity|]. split.
  - apply (get_fqdn_from_hosts_entries
             (example_world
                [("/etc/hosts",
                  File (hosts_text [("127.0.0.1", "localhost", []);
                                    ("10.0.0.5", "web.example.com", ["web"; "www"])]))])
             "www" "/etc/hosts"
             [("127.0.0.1", "localhost", []);
              ("10.0.0.5", "web.example.com", ["web"; "www"])] []).
    + reflexivity.
    + repeat constructor.
  - reflexivity.
Defined.

(** ** is_ipv4 *)

Lemma octets_spec int_of toks :
  match octets int_of toks with
  | Some kept =>
      (length kept <= length toks)%nat /\
      (length kept = length toks <-> Forall (is_octet int_of) toks)
  | None => ~ Forall (is_octet int_of) toks
  end.
Proof.
  induction toks as [|x toks IH]; cbn [octets].
  - split; [reflexivity|]. split; auto.
  - destruct (int_of x) as [n|] eqn:Hx.
    + destruct (octets int_of toks) as [kept|].
      * destruct IH as [Hle Hiff].
        destruct ((n <? 256) && (n >? 0)) eqn:Hr; cbn [length].
        -- split; [lia|]. split.
           ++ intros E. constructor; [|apply Hiff; lia].
              exists n. apply andb_prop in Hr as [H1 H2]. split; [assumption|]. lia.
           ++ intros H. inversion H; subst. f_equal. now apply Hiff.
        -- split; [lia|]. split; [lia|].
           intros H. inversion H as [|? ? (m & Hm & Hrange) _]; subst.
           assert (m = n) by congruence. subst m.
           apply andb_false_iff in Hr as [Hr|Hr]; lia.
      * intros H. inversion H; subst. now apply IH.
    + intros H. inversion H as [|? ? (m & Hm & _) _]; subst. congruence.
Qed.

(** X18. [is_ipv4] holds exactly when the text has four parts between
    dots and [int] reads each of them as a number from 1 to 255; a part
    that reads as 0, as in 10.0.0.1, makes it fail. *)
Theorem is_ipv4_spec (int_of : string -> option Z) (instr : string) :
  (is_ipv4 int_of instr = true <->
   length (split_char "." instr) = 4%nat /\
   Forall (is_octet int_of) (split_char "." instr)) /\
  (forall part, In part (split_char "." instr) -> int_of part = Some 0 ->
                is_ipv4 int_of instr = false).
Proof.
  assert (Hiff : is_ipv4 int_of instr = true <->
            length (split_char "." instr) = 4%nat /\
            Forall (is_octet int_of) (split_char "." instr)).
  { unfold is_ipv4.
    pose proof (octets_spec int_of (split_char "." instr)) as Ho.
    destruct (Nat.eqb_spec (length (split_char "." instr)) 4) as [E|E]; cbn [negb].
    - destruct (octets int_of (split_char "." instr)) as [kept|].
      + destruct Ho as [Hle Ho]. rewrite Nat.eqb_eq. rewrite E in Ho.
        split; [intros H; split; [exact E|now apply Ho] | intros [_ H]; now apply Ho].
      + split; [discriminate|]. intros [_ H]. contradiction.
    - split; [discriminate|]. intros [H _]. contradiction. }
  split; [exact Hiff|].
  intros part Hin H0.
  apply not_true_is_false. intros E.
  apply Hiff in E as [_ Hall]. rewrite List.Forall_forall in Hall.
  destruct (Hall part Hin) as (n & Hn & Hr). assert (n = 0) by congruence. lia.
Qed.

(** ** The order of the operands of mergedict *)




(** ** No escape is left in the kernel command line's configuration *)

Lemma has_pair_cons a b x s :
  has_pair a b (String x s) = (Ascii.eqb x a && starts_with_char b s) || has_pair a b s.
Proof. destruct s; cbn [has_pair starts_with_char]; [now rewrite andb_false_r|reflexivity]. Qed.

Lemma prefix_pair a b s :
  String.prefix (String a (String b EmptyString)) s
  = match s with
    | String x s' => Ascii.eqb a x && starts_with_char b s'
    | EmptyString => false
    end.
Proof.
  destruct s as [|x s]; [reflexivity|]. rewrite prefix_cons.
  destruct s as [|y s]; [reflexivity|]. rewrite prefix_cons.
  replace (String.prefix "" s) with true by now destruct s.
  cbn [starts_with_char]. now rewrite andb_true_r, (Ascii.eqb_sym b y).
Qed.

Lemma replace_escape_spec s :
  has_pair "\" "n" (replace_from "\n" nl 0 s) = false /\
  has_pair "\" "n" (replace_from "\n" nl 1 s) = false /\
  (starts_with_char "n" (replace_from "\n" nl 0 s) = true -> starts_with_char "n" s = true).
Proof.
  induction s as [|c s (IH0 & IH1 & IHh)]; [repeat split; auto|].
  assert (A : has_pair "\" "n" (replace_from "\n" nl 0 (String c s)) = false /\
              (starts_with_char "n" (replace_from "\n" nl 0 (String c s)) = true ->
               starts_with_char "n" (String c s) = true)).
  { cbn [replace_from]. rewrite prefix_pair.
    destruct (Ascii.eqb "\" c && starts_with_char "n" s) eqn:Hp.
    - cbn [String.length Nat.sub]. unfold nl at 1 3. cbn [String.append].
      rewrite has_pair_cons. cbn [Ascii.eqb Bool.eqb andb orb starts_with_char].
      split; [exact IH1|discriminate].
    - rewrite has_pair_cons, IH0, orb_false_r. split.
      + destruct (Ascii.eqb c "\") eqn:Hc; [|reflexivity]. cbn [andb].
        rewrite Ascii.eqb_sym, Hc in Hp. cbn [andb] in Hp.
        destruct (starts_with_char "n" (replace_from "\n" nl 0 s)) eqn:Hh; [|reflexivity].
        rewrite (IHh eq_refl) in Hp. discriminate.
      + cbn [starts_with_char]. auto. }
  destruct A as [A1 A2]. repeat split; auto.
Qed.

Lemma unescape_no_escape body : has_pair "\" "n" (unescape body) = false.
Proof. unfold unescape, replace. apply replace_escape_spec. Qed.

Lemma has_pair_app_nl a b :
  has_pair "\" "n" a = false -> has_pair "\" "n" b = false ->
  has_pair "\" "n" (a ++ nl ++ b) = false.
Proof.
  intros Ha Hb. induction a as [|x a IH].
  - unfold nl. cbn [String.append]. rewrite has_pair_cons, Hb. reflexivity.
  - rewrite has_pair_cons in Ha. apply orb_false_elim in Ha as [Hx Ha].
    cbn [String.append]. rewrite has_pair_cons, (IH Ha), orb_false_r.
    destruct a as [|y a]; [|exact Hx].
    unfold nl. cbn [String.append starts_with_char Ascii.eqb Bool.eqb].
    now rewrite andb_false_r.
Qed.

Lemma join_no_escape tokens :
  Forall (fun t => has_pair "\" "n" t = false) tokens ->
  has_pair "\" "n" (join nl tokens) = false.
Proof.
  induction 1 as [|t tokens Ht Hall IH]; [reflexivity|].
  destruct tokens as [|u tokens]; [exact Ht|].
  rewrite join_cons. now apply has_pair_app_nl.
Qed.

Lemma find_pair_none a b s :
  has_pair a b s = false -> find s (String a (String b EmptyString)) 0 = -1.
Proof.
  intros H. unfold find. change (Z.to_nat 0) with 0%nat.
  assert (E : String.index 0 (String a (String b EmptyString)) s = None);
    [|now rewrite E].
  induction s as [|x s IH]; [reflexivity|].
  rewrite has_pair_cons in H. apply orb_false_elim in H as [Hx Hs].
  cbn [String.index]. rewrite prefix_pair, Ascii.eqb_sym, Hx.
  now rewrite (IH Hs).
Qed.

Lemma cc_from_cmdline_no_escape cmdline : find (cc_from_cmdline cmdline) "\n" 0 = -1.
Proof.
  apply find_pair_none. rewrite cc_from_cmdline_blocks. apply join_no_escape.
  apply Forall_map. apply List.Forall_forall. intros b _. apply unescape_no_escape.
Qed.

(** X20. What [read_cc_from_cmdline] returns never holds the
    two-character escape, a backslash followed by [n]: every one in a
    block is decoded, and decoding makes no new one. *)
Theorem read_cc_from_cmdline_no_escape (w : world) (cmdline : option string)
    (tr : list event) (out : string) :
  fst (read_cc_from_cmdline w cmdline tr) = Return out ->
  find out "\n" 0 = -1.
Proof.
  unfold read_cc_from_cmdline, bind, ret. intros H.
  destruct cmdline as [c|].
  - cbn in H. injection H as <-. apply cc_from_cmdline_no_escape.
  - destruct (get_cmdline w tr) as [[c|e] t]; cbn in H; [|discriminate].
    injection H as <-. apply cc_from_cmdline_no_escape.
Qed.

Lemma read_cc_from_cmdline_no_escape_witness :
  fst (read_cc_from_cmdline kernel_order_world (Some "ro cc: a: 1\nb: 2 end_cc quiet") [])
  = Return ("a: 1" ++ nl ++ "b: 2 ") /\
  find ("a: 1" ++ nl ++ "b: 2 ") "\n" 0 = -1.
Proof.
  split; [reflexivity|].
  apply (read_cc_from_cmdline_no_escape kernel_order_world
           (Some "ro cc: a: 1\nb: 2 end_cc quiet") []).
  reflexivity.
Defined.

(** ** Settings given on the kernel command line *)

Lemma get_cmdline_value w tr : fst (get_cmdline w tr) = fst (get_cmdline w []).
Proof.
  unfold get_cmdline. destruct (environ w !! "DEBUG_PROC_CMDLINE"); [reflexivity|].
  unfold try_except, load_file, open_read, bind, lift, LOG_debug, emit, ret.
  cbn. destruct (fs w !! "/proc/cmdline") as [[content|n|es|n|]|]; reflexivity.
Qed.

Lemma load_yaml_dict w blob kern tr :
  yaml_load w blob = Some (VDict kern) ->
  fst (load_yaml w blob (VDict []) [TDict] tr) = Return (VDict kern).
Proof.
  intros H. unfold load_yaml, bind, LOG_debug, emit, ret. cbn. now rewrite H.
Qed.

(** X21. When [merge_base_cfg] returns, the configuration has every
    setting of the dictionary given between [cc:] and [end_cc] on the
    kernel command line. *)
Theorem merge_base_cfg_keeps_kernel_settings (w : world) (cfgfile : string)
    (cfg_builtin : value) (tr : list event) (fin : value)
    (cmdline : string) (kern : list (string * value)) :
  fst (merge_base_cfg w cfgfile cfg_builtin tr) = Return fin ->
  fst (get_cmdline w tr) = Return cmdline ->
  cc_from_cmdline cmdline <> EmptyString ->
  yaml_load w (cc_from_cmdline cmdline) = Some (VDict kern) ->
  keeps_settings (VDict kern) fin.
Proof.
  intros H Hc Hne Hy. apply keeps_settings_lookup.
  apply fst_return in H as [tr' H]. unfold merge_base_cfg in H.
  apply bind_return_inv in H as (syscfg & t1 & Hs & H).
  apply bind_return_inv in H as (kern_contents & t2 & Hk & H).
  apply bind_return_inv in H as (kerncfg & t3 & Hl & H).
  apply bind_return_inv in H as (combined & t4 & Hm & H).
  apply lift_inv in Hm as [Hm ->].
  assert (kern_contents = cc_from_cmdline cmdline).
  { unfold read_cc_from_cmdline in Hk.
    apply bind_return_inv in Hk as (c & t & Hg & Hk).
    injection Hk as <- _.
    pose proof (get_cmdline_value w t1) as E1. pose proof (get_cmdline_value w tr) as E2.
    rewrite Hg in E1. rewrite Hc in E2. cbn [fst] in E1. congruence. }
  subst kern_contents.
  assert (Ht : truthy (VStr (cc_from_cmdline cmdline)) = true).
  { cbn [truthy]. destruct (cc_from_cmdline cmdline); [congruence|reflexivity]. }
  rewrite Ht in Hl.
  pose proof (load_yaml_dict w _ kern t2 Hy) as Hd. rewrite Hl in Hd. cbn [fst] in Hd.
  injection Hd as ->.
  destruct (mergedict_keeps _ _ _ Hm) as [K1 _].
  destruct (truthy cfg_builtin).
  - apply lift_inv in H as [H _].
    eapply keeps_trans; [exact K1|]. exact (proj1 (mergedict_keeps _ _ _ H)).
  - injection H as <- _. exact K1.
Qed.

Lemma merge_base_cfg_keeps_kernel_settings_witness :
  fst (merge_base_cfg
         (example_world [(cloud_cfg, File "a: 1"); ("/proc/cmdline", File "ro cc: x: 9 end_cc")])
         cloud_cfg VNone [])
  = Return (VDict [("x", VInt 9); ("a", VInt 1)]) /\
  keeps_settings (VDict [("x", VInt 9)]) (VDict [("x", VInt 9); ("a", VInt 1)]).
Proof.
  split; [reflexivity|].
  apply (merge_base_cfg_keeps_kernel_settings
           (example_world
              [(cloud_cfg, File "a: 1"); ("/proc/cmdline", File "ro cc: x: 9 end_cc")])
           cloud_cfg VNone [] _ "ro cc: x: 9 end_cc" [("x", VInt 9)]).
  - reflexivity.
  - reflexivity.
  - discriminate.
  - reflexivity.
Defined.

(** ** pipe_in_out *)

Lemma pipe_loop_eq size cb rest out piped calls :
  pipe_loop size cb rest out piped calls =
  if String.eqb (fst (fh_read rest size)) EmptyString then (out, piped, calls)
  else
    pipe_loop size cb (snd (fh_read rest size)) (out ++ fst (fh_read rest size))
      (piped + Z.of_nat (String.length (fst (fh_read rest size))))
      (if cb
       then (calls ++ [piped + Z.of_nat (String.length (fst (fh_read rest size)))])%list
       else calls).
Proof.
  rewrite pipe_loop_equation_1.
  destruct (string_dec (fst (fh_read rest size)) EmptyString) as [E|E]; simpl.
  - now rewrite E.
  - apply String.eqb_neq in E. now rewrite E.
Qed.

Lemma fh_read_parts rest size :
  fst (fh_read rest size) ++ snd (fh_read rest size) = rest.
Proof.
  unfold fh_read. destruct (size <? 0); simpl; [apply append_nil_r|].
  generalize (Z.to_nat size). intros n. revert rest.
  induction n as [|n IH]; intros [|c rest]; simpl; try reflexivity.
  now rewrite IH.
Qed.

Lemma fh_read_empty rest size :
  size <> 0 -> fst (fh_read rest size) = EmptyString -> rest = EmptyString.
Proof.
  unfold fh_read. intros Hs. destruct (Z.ltb_spec size 0); simpl; [auto|].
  destruct (Z.to_nat size) as [|n] eqn:E; [lia|].
  destruct rest; [reflexivity|discriminate].
Qed.

Lemma length_nonempty s : s <> EmptyString -> (0 < String.length s)%nat.
Proof. destruct s; [congruence|simpl; lia]. Qed.

(** What the loop leaves for a chunk size other than 0. *)
Lemma pipe_loop_copies size cb : size <> 0 -> forall n rest out piped calls,
  (String.length rest <= n)%nat ->
  exists new,
    pipe_loop size cb rest out piped calls
    = (out ++ rest, piped + Z.of_nat (String.length rest), (calls ++ new)%list) /\
    (cb = false -> new = []) /\
    (cb = true -> rest <> EmptyString ->
     last new = Some (piped + Z.of_nat (String.length rest))) /\
    Forall (fun k => piped < k <= piped + Z.of_nat (String.length rest)) new.
Proof.
  intros Hs. induction n as [|n IH]; intros rest out piped calls Hn.
  - destruct rest; [|simpl in Hn; lia].
    exists []. rewrite pipe_loop_eq.
    replace (fst (fh_read "" size)) with EmptyString
      by (unfold fh_read; destruct (size <? 0); [reflexivity|now destruct (Z.to_nat size)]).
    simpl. rewrite append_nil_r, Z.add_0_r, app_nil_r. repeat split; auto. congruence.
  - rewrite pipe_loop_eq.
    destruct (String.eqb_spec (fst (fh_read rest size)) EmptyString) as [E|E].
    + apply (fh_read_empty _ _ Hs) in E. subst rest.
      exists []. simpl. rewrite append_nil_r, Z.add_0_r, app_nil_r.
      repeat split; auto. congruence.
    + pose proof (fh_read_decreases rest size E) as Hdec.
      pose proof (fh_read_parts rest size) as Hparts.
      set (data := fst (fh_read rest size)) in *.
      set (left := snd (fh_read rest size)) in *.
      assert (Hlen : String.length rest = (String.length data + String.length left)%nat)
        by (rewrite <- Hparts; apply length_append).
      assert (Hdata : (0 < String.length data)%nat) by now apply length_nonempty.
      destruct (IH left (out ++ data) (piped + Z.of_nat (String.length data))
                  (if cb then (calls ++ [piped + Z.of_nat (String.length data)])%list
                   else calls) ltac:(lia))
        as (new & -> & Hnocb & Hlast & Hall).
      exists (if cb then (piped + Z.of_nat (String.length data)) :: new else new).
      split; [|split; [|split]].
      * rewrite append_assoc, Hparts. f_equal; [f_equal; lia|].
        destruct cb; [now rewrite <- app_assoc|reflexivity].
      * intros ->. now apply Hnocb.
      * intros -> _. destruct (String.eqb_spec left EmptyString) as [El|El].
        -- rewrite El in Hlen, Hall. simpl in Hlen, Hall.
           assert (Hnew : new = []).
           { destruct new as [|k new]; [reflexivity|].
             inversion Hall as [|? ? Hk _]. lia. }
           rewrite Hnew. simpl. f_equal. lia.
        -- specialize (Hlast eq_refl El). destruct new as [|k new]; [discriminate|].
           change (last (k :: new) = Some (piped + Z.of_nat (String.length rest))).
           rewrite Hlast. f_equal. lia.
      * assert (Hall' : Forall (fun k => piped < k <= piped + Z.of_nat (String.length rest)) new).
        { eapply List.Forall_impl; [|exact Hall]. simpl. intros k Hk. lia. }
        destruct cb; [constructor; [lia|exact Hall']|exact Hall'].
Qed.

(** X10. With a chunk size other than 0, [pipe_in_out] appends to the
    output everything left in the input and returns its length; the
    callback, when there is one, is told growing totals that end with
    that length.  With a chunk size of 0 nothing is copied.  So
    [load_file] returns the whole content of a file it can open. *)
Theorem pipe_in_out_copies (in_fh out_fh : string) (chunk_size : Z) (chunk_cb : bool)
    (tr : list event) :
  (chunk_size <> 0 ->
   exists calls,
     fst (pipe_in_out in_fh out_fh chunk_size chunk_cb tr)
     = Return (out_fh ++ in_fh, Z.of_nat (String.length in_fh), calls) /\
     (chunk_cb = false -> calls = []) /\
     (chunk_cb = true -> in_fh <> EmptyString ->
      last calls = Some (Z.of_nat (String.length in_fh))) /\
     Forall (fun k => 0 < k <= Z.of_nat (String.length in_fh)) calls) /\
  fst (pipe_in_out in_fh out_fh 0 chunk_cb tr) = Return (out_fh, 0, []) /\
  (forall w fname,
     fs w !! fname = Some (File in_fh) ->
     fst (load_file w fname tr) = Return in_fh /\
     fst (pipe_in_out in_fh EmptyString chunk_size_default false tr)
     = Return (in_fh, Z.of_nat (String.length in_fh), [])).
Proof.
  split; [|split].
  - intros Hs.
    destruct (pipe_loop_copies chunk_size chunk_cb Hs (String.length in_fh)
                in_fh out_fh 0 [] (le_n _)) as (new & E & H1 & H2 & H3).
    exists new. unfold pipe_in_out, bind, LOG_debug, emit, ret. cbn [fst].
    rewrite E. repeat split; auto.
  - unfold pipe_in_out, bind, LOG_debug, emit, ret. cbn [fst].
    rewrite pipe_loop_eq.
    replace (fst (fh_read in_fh 0)) with EmptyString
      by (unfold fh_read; simpl; now destruct in_fh).
    reflexivity.
  - intros w fname Hf. split.
    + unfold load_file, open_read, bind, lift, LOG_debug, emit, ret. now rewrite Hf.
    + destruct (pipe_loop_copies chunk_size_default false ltac:(discriminate)
                  (String.length in_fh) in_fh EmptyString 0 [] (le_n _))
        as (new & E & H1 & _).
      unfold pipe_in_out, bind, LOG_debug, emit, ret. cbn [fst].
      rewrite E, (H1 eq_refl). reflexivity.
Qed.

Lemma pipe_in_out_copies_witness :
  fst (pipe_in_out "abcdefg" "xy" 3 true []) = Return ("xyabcdefg", 7, [3; 6; 7]) /\
  exists calls,
    fst (pipe_in_out "abcdefg" "xy" 3 true [])
    = Return ("xy" ++ "abcdefg", Z.of_nat (String.length "abcdefg"), calls) /\
    (true = false -> calls = []) /\
    (true = true -> "abcdefg" <> EmptyString ->
     last calls = Some (Z.of_nat (String.length "abcdefg"))) /\
    Forall (fun k => 0 < k <= Z.of_nat (String.length "abcdefg")) calls.
Proof.
  split; [reflexivity|].
  apply (proj1 (pipe_in_out_copies "abcdefg" "xy" 3 true [])). discriminate.
Defined.
